(** * A todo service: entity, controller and case converter

  Shallow embedding of [src/models/Todo.ts] (the entity) and
  [src/controllers/TodoController.ts] (the HTTP handlers).  JavaScript
  objects are association lists in insertion order, asynchronous handlers
  are computations in a state-and-exception monad that also records the
  observable events (storage statements, console output, responses). *)

From Stdlib Require Import String Ascii List Bool ZArith Arith Sorted Permutation
  DecimalString.
Import ListNotations.
Open Scope string_scope.

(* ===================================================================== *)
(** * JavaScript values and objects *)
(* ===================================================================== *)

Definition Timestamp := Z.

(** The values that travel between a request body, a props object and a
  result row.  [JDate t] is a [Date] whose epoch time is [t]; [JOther]
  stands for any array or nested object. *)
Inductive JsVal : Type :=
| JUndefined
| JNull
| JBool (b : bool)
| JNum (n : Z)
| JStr (s : string)
| JDate (t : Timestamp)
| JOther.

(** JavaScript truthiness, as used by [if (x)] and [x ? a : b]. *)
Definition truthy (v : JsVal) : bool :=
match v with
| JUndefined | JNull => false
| JBool b => b
| JNum n => negb (n =? 0)%Z
| JStr s => negb (s =? "")
| JDate _ | JOther => true
end.

(** [x ?? y] keeps [x] unless it is [null] or [undefined]. *)
Definition nullish (v : JsVal) : bool :=
match v with
| JUndefined | JNull => true
| _ => false
end.

(** An object: its own enumerable keys in insertion order, without
  repetition. *)
Definition Obj (V : Type) : Type := list (string * V).

Section Objects.
Context {V : Type}.

Fixpoint obj_find (k : string) (o : Obj V) : option V :=
  match o with
  | [] => None
  | (k', v) :: rest => if k' =? k then Some v else obj_find k rest
  end.

(** [o[k] = v]: overwrite in place when the key exists, else append. *)
Fixpoint obj_set (o : Obj V) (k : string) (v : V) : Obj V :=
  match o with
  | [] => [(k, v)]
  | (k', v') :: rest =>
      if k' =? k then (k', v) :: rest else (k', v') :: obj_set rest k v
  end.

Definition obj_keys (o : Obj V) : list string := map fst o.

(** [{...a, ...b}]. *)
Definition obj_spread (a b : Obj V) : Obj V :=
  fold_left (fun acc kv => obj_set acc (fst kv) (snd kv)) b a.
End Objects.

(** [o.k] on an object of JavaScript values: a missing key reads as
  [undefined]. *)
Definition prop (o : Obj JsVal) (k : string) : JsVal :=
match obj_find k o with
| Some v => v
| None => JUndefined
end.

(* ===================================================================== *)
(** * The case converter ([src/utils], not part of the sources at hand) *)
(* ===================================================================== *)

Module CaseConverter.

Definition is_upper (c : ascii) : bool :=
  Nat.leb 65 (nat_of_ascii c) && Nat.leb (nat_of_ascii c) 90.

Definition is_lower (c : ascii) : bool :=
  Nat.leb 97 (nat_of_ascii c) && Nat.leb (nat_of_ascii c) 122.

Definition to_upper (c : ascii) : ascii :=
  if is_lower c then ascii_of_nat (nat_of_ascii c - 32) else c.

Definition to_lower (c : ascii) : ascii :=
  if is_upper c then ascii_of_nat (nat_of_ascii c + 32) else c.

Fixpoint string_forall (p : ascii -> bool) (s : string) : bool :=
  match s with
  | EmptyString => true
  | String c r => p c && string_forall p r
  end.

Fixpoint string_map (f : ascii -> ascii) (s : string) : string :=
  match s with
  | EmptyString => EmptyString
  | String c r => String (f c) (string_map f r)
  end.

Definition capitalize (s : string) : string :=
  match s with
  | EmptyString => EmptyString
  | String c r => String (to_upper c) r
  end.

(** Glue [w] in front of the first word of a split. *)
Definition prepend (w : string) (ws : list string) : list string :=
  match ws with
  | [] => [w]
  | h :: t => (w ++ h) :: t
  end.

(** Split on ["_"]. *)
Fixpoint split_snake (s : string) : list string :=
  match s with
  | EmptyString => [""]
  | String c r =>
      if Ascii.eqb c "_" then "" :: split_snake r
      else prepend (String c "") (split_snake r)
  end.

(** Split on the uppercase boundary: every uppercase letter opens a word. *)
Fixpoint split_camel (s : string) : list string :=
  match s with
  | EmptyString => [""]
  | String c r =>
      if is_upper c then "" :: prepend (String c "") (split_camel r)
      else prepend (String c "") (split_camel r)
  end.

(** Modelled from the spec: [snakeToCamel] of [src/utils] is missing from
    the sources; the spec gives it as a pure string rule, split on ["_"]
    and rejoin (each word after the first capitalised). *)
Definition snakeToCamel (s : string) : string :=
  match split_snake s with
  | [] => ""
  | w :: ws => w ++ String.concat "" (map capitalize ws)
  end.

(** Modelled from the spec: [camelToSnake] of [src/utils] is missing from
    the sources; the spec gives it as a pure string rule, split on the
    uppercase boundary and rejoin (lowercased words joined by ["_"]). *)
Definition camelToSnake (s : string) : string :=
  String.concat "_" (map (string_map to_lower) (split_camel s)).

(** Modelled from the spec: [convertToCase] of [src/utils] is missing from
    the sources; the spec gives it as: from a mapping and a per-key string
    transform, produce a new mapping with every key transformed, values
    untouched.  The new object is filled key by key, so a later key that
    collides with an earlier one overwrites its value. *)
Definition convertToCase {V : Type} (f : string -> string) (o : Obj V) : Obj V :=
  fold_left (fun acc kv => obj_set acc (f (fst kv)) (snd kv)) o [].

(** A lowercase ASCII word: non-empty, letters [a]..[z] only. *)
Definition is_word (w : string) : bool :=
  negb (w =? "") && string_forall is_lower w.

(** A compound word: at least one lowercase word. *)
Definition is_compound (ws : list string) : bool :=
  negb (Nat.eqb (length ws) 0) && forallb is_word ws.

(** The two spellings of a compound word. *)
Definition camel_of (ws : list string) : string :=
  match ws with
  | [] => ""
  | w :: r => w ++ String.concat "" (map capitalize r)
  end.

Definition snake_of (ws : list string) : string := String.concat "_" ws.

Definition camel_key (k : string) : Prop :=
  exists ws, is_compound ws = true /\ k = camel_of ws.

Definition snake_key (k : string) : Prop :=
  exists ws, is_compound ws = true /\ k = snake_of ws.

End CaseConverter.

Import CaseConverter.

(* ===================================================================== *)
(** * The [todos] table and the statements the entity sends *)
(* ===================================================================== *)

Inductive Column : Type :=
| c_id | c_title | c_description | c_status
| c_due_at | c_created_at | c_completed_at | c_edited_at.

Definition all_columns : list Column :=
  [c_id; c_title; c_description; c_status;
   c_due_at; c_created_at; c_completed_at; c_edited_at].

Definition column_name (c : Column) : string :=
  match c with
  | c_id => "id"
  | c_title => "title"
  | c_description => "description"
  | c_status => "status"
  | c_due_at => "due_at"
  | c_created_at => "created_at"
  | c_completed_at => "completed_at"
  | c_edited_at => "edited_at"
  end.

Definition column_of_name (s : string) : option Column :=
  find (fun c => column_name c =? s) all_columns.

(** One row, as the driver hands it over: [id] is the serial key (an int4
    in every row the storage can hold), the other cells are JavaScript
    values ([JNull] for SQL NULL). *)
Record Row : Type := mkRow {
  r_id : Z;
  r_title : JsVal;
  r_description : JsVal;
  r_status : JsVal;
  r_due_at : JsVal;
  r_created_at : JsVal;
  r_completed_at : JsVal;
  r_edited_at : JsVal
}.

Definition cell (c : Column) (r : Row) : JsVal :=
  match c with
  | c_id => JNum (r_id r)
  | c_title => r_title r
  | c_description => r_description r
  | c_status => r_status r
  | c_due_at => r_due_at r
  | c_created_at => r_created_at r
  | c_completed_at => r_completed_at r
  | c_edited_at => r_edited_at r
  end.

Definition set_cell (c : Column) (v : JsVal) (r : Row) : Row :=
  match c with
  | c_id =>
      match v with
      | JNum n => mkRow n (r_title r) (r_description r) (r_status r)
                    (r_due_at r) (r_created_at r) (r_completed_at r) (r_edited_at r)
      | _ => r
      end
  | c_title => mkRow (r_id r) v (r_description r) (r_status r)
                 (r_due_at r) (r_created_at r) (r_completed_at r) (r_edited_at r)
  | c_description => mkRow (r_id r) (r_title r) v (r_status r)
                       (r_due_at r) (r_created_at r) (r_completed_at r) (r_edited_at r)
  | c_status => mkRow (r_id r) (r_title r) (r_description r) v
                  (r_due_at r) (r_created_at r) (r_completed_at r) (r_edited_at r)
  | c_due_at => mkRow (r_id r) (r_title r) (r_description r) (r_status r)
                  v (r_created_at r) (r_completed_at r) (r_edited_at r)
  | c_created_at => mkRow (r_id r) (r_title r) (r_description r) (r_status r)
                      (r_due_at r) v (r_completed_at r) (r_edited_at r)
  | c_completed_at => mkRow (r_id r) (r_title r) (r_description r) (r_status r)
                        (r_due_at r) (r_created_at r) v (r_edited_at r)
  | c_edited_at => mkRow (r_id r) (r_title r) (r_description r) (r_status r)
                     (r_due_at r) (r_created_at r) (r_completed_at r) v
  end.

(** The result row as a JavaScript object: one key per column, snake_case. *)
Definition row_object (r : Row) : Obj JsVal :=
  map (fun c => (column_name c, cell c r)) all_columns.

(** A fresh row before the INSERT's own values are written: the serial id,
    every other column NULL. *)
Definition blank_row (serial : Z) : Row :=
  mkRow serial JNull JNull JNull JNull JNull JNull JNull.

Inductive Direction : Type := ASC | DESC.

(** The statements of [Todo.ts], with their interpolated parts. *)
Inductive Stmt : Type :=
| Insert (values : Obj JsVal)
    (* INSERT INTO todos ${sql(values)} RETURNING * *)
| SelectById (id : JsVal)
    (* SELECT * FROM todos WHERE id = ${id} *)
| SelectAll (where_status : option JsVal) (order_by : option Column)
            (direction : option Direction)
    (* SELECT * FROM todos [WHERE status = ${s}] [ORDER BY col] [ASC|DESC] *)
| Update (values : Obj JsVal) (edited_at : JsVal) (id : JsVal)
    (* UPDATE todos SET ${sql(values)}, edited_at = ${t} WHERE id = ${id}
       RETURNING * *)
| Delete (id : JsVal).
    (* DELETE FROM todos WHERE id = ${id} *)

(** What a statement resolves to: the rows, and the affected-row count. *)
Record QueryResult : Type := mkResult {
  rows : list Row;
  count : nat
}.

Inductive Error : Type :=
| ConnectionError      (* the pool or the connection failed *)
| UndefinedValue       (* the driver refuses an [undefined] parameter *)
| SyntaxError          (* the statement text does not parse *)
| DatatypeMismatch     (* a value does not fit its column, or no such column *)
| NumericValueOutOfRange  (* a number that is no int4 where an id is due *)
| NotNullViolation
| UniqueViolation
| TypeError.           (* a JavaScript TypeError *)

Definition error_text (e : Error) : string :=
  match e with
  | ConnectionError => "Error: connection failed"
  | UndefinedValue => "Error: UNDEFINED_VALUE: Undefined values are not allowed"
  | SyntaxError => "PostgresError: syntax error"
  | DatatypeMismatch => "PostgresError: datatype mismatch"
  | NumericValueOutOfRange => "PostgresError: value is out of range for type integer"
  | NotNullViolation => "PostgresError: null value violates not-null constraint"
  | UniqueViolation => "PostgresError: duplicate key value violates unique constraint"
  | TypeError => "TypeError: Cannot convert undefined or null to object"
  end.

(** ** Ordering of cells: ORDER BY *)

Definition cell_rank (v : JsVal) : nat :=
  match v with
  | JNum _ => 0 | JStr _ => 1 | JDate _ => 2 | JBool _ => 3
  | JOther => 4 | JUndefined => 5 | JNull => 6
  end.

(** Numbers and dates by value, text by code point; NULL is larger than
    every value (NULLS LAST when ascending, first when descending). *)
Definition cell_compare (a b : JsVal) : comparison :=
  match a, b with
  | JNum x, JNum y => Z.compare x y
  | JDate x, JDate y => Z.compare x y
  | JStr x, JStr y => String.compare x y
  | JBool x, JBool y => Bool.compare x y
  | _, _ => Nat.compare (cell_rank a) (cell_rank b)
  end.

Definition cell_leb (a b : JsVal) : bool :=
  match cell_compare a b with
  | Gt => false
  | _ => true
  end.

(** [row_leb c d r1 r2]: [r1] may come before [r2] under ORDER BY [c] [d]. *)
Definition row_leb (c : Column) (d : Direction) (r1 r2 : Row) : bool :=
  match d with
  | ASC => cell_leb (cell c r1) (cell c r2)
  | DESC => cell_leb (cell c r2) (cell c r1)
  end.

Fixpoint insert_sorted (le : Row -> Row -> bool) (r : Row) (l : list Row) : list Row :=
  match l with
  | [] => [r]
  | h :: t => if le r h then r :: h :: t else h :: insert_sorted le r t
  end.

Definition sort_rows (le : Row -> Row -> bool) (l : list Row) : list Row :=
  fold_right (insert_sorted le) [] l.

(** ** Binding JavaScript values to columns *)

Definition is_undefined (v : JsVal) : bool :=
  match v with
  | JUndefined => true
  | _ => false
  end.

(** The [id] column is a 32-bit integer (a [serial] key). *)
Definition in_int4 (n : Z) : bool :=
  (-2147483648 <=? n)%Z && (n <=? 2147483647)%Z.

(** A number sent for a text column goes over the wire as its decimal
    text. *)
Definition number_text (n : Z) : string :=
  NilZero.string_of_int (Z.to_int n).

(** What column [c] holds once the parameter [v] has been written to it. *)
Definition stored (c : Column) (v : JsVal) : JsVal :=
  match c, v with
  | (c_title | c_description | c_status), JNum n => JStr (number_text n)
  | _, _ => v
  end.

(** The value written to column [c] for the parameter [v], or the error the
    statement fails with before it runs: the driver refuses [undefined], an
    id has to be an int4, the text columns take strings and numbers, the
    timestamps take dates, and every column but the id takes NULL here
    (NOT NULL is checked when the statement runs). *)
Definition bind_value (c : Column) (v : JsVal) : Error + JsVal :=
  match v with
  | JUndefined => inl UndefinedValue
  | _ =>
    match c, v with
    | c_id, JNum n => if in_int4 n then inr v else inl NumericValueOutOfRange
    | (c_title | c_description | c_status), (JStr _ | JNum _ | JNull) =>
        inr (stored c v)
    | (c_due_at | c_created_at | c_completed_at | c_edited_at), (JDate _ | JNull) => inr v
    | _, _ => inl DatatypeMismatch
    end
  end.

(** The column list built by [sql(obj)] from the keys of [obj], each value
    typed for its column. *)
Fixpoint bind_typed (o : Obj JsVal) : Error + list (Column * JsVal) :=
  match o with
  | [] => inr []
  | (k, v) :: rest =>
      match column_of_name k with
      | None => inl DatatypeMismatch
      | Some c =>
          match bind_value c v, bind_typed rest with
          | inl e, _ => inl e
          | _, inl e => inl e
          | inr v', inr cs => inr ((c, v') :: cs)
          end
      end
  end.

(** The driver goes through all the values first and refuses the statement
    when one of them is [undefined]; the types are the server's business. *)
Definition bind_cells (o : Obj JsVal) : Error + list (Column * JsVal) :=
  if existsb (fun kv => is_undefined (snd kv)) o
  then inl UndefinedValue
  else bind_typed o.

Definition assign (cs : list (Column * JsVal)) (r : Row) : Row :=
  fold_left (fun acc cv => set_cell (fst cv) (snd cv) acc) cs r.

Definition assigns (c : Column) (cs : list (Column * JsVal)) : bool :=
  existsb (fun cv => column_name (fst cv) =? column_name c) cs.

(** [WHERE id = n]: the row is the one stored under the int4 [n]. *)
Definition has_id (n : Z) (r : Row) : bool := in_int4 n && (r_id r =? n)%Z.

(** A column list that writes NULL to a NOT NULL column. *)
Definition writes_null (cs : list (Column * JsVal)) : bool :=
  existsb (fun cv => match fst cv with
                     | c_title | c_description => nullish (snd cv)
                     | _ => false
                     end) cs.

(** ** The database: the table, and the next value of the id sequence *)

Record Database : Type := mkDb {
  table : list Row;
  serial : Z
}.

(** The database once an INSERT has drawn its id: the sequence moves on
    unless the column list brings an id of its own.  A value drawn is gone
    even when the statement is refused afterwards. *)
Definition drawn (cs : list (Column * JsVal)) (db : Database) : Database :=
  mkDb (table db) (if assigns c_id cs then serial db else serial db + 1).

(** Running one statement on the database.  A statement refused while it is
    bound leaves the database as it is.  An INSERT that is bound draws its
    id, and is then refused for a NULL in [title] or [description], for an
    id the sequence has run out of, or for an id already taken.  An UPDATE
    writes the new version of a row after the rows it leaves alone. *)
Definition exec (s : Stmt) (db : Database) : (Error + QueryResult) * Database :=
  match s with
  | Insert values =>
      match bind_cells values with
      | inl e => (inl e, db)
      | inr cs =>
          let row := assign cs (blank_row (serial db)) in
          if nullish (r_title row) || nullish (r_description row)
          then (inl NotNullViolation, drawn cs db)
          else if negb (in_int4 (r_id row))
          then (inl NumericValueOutOfRange, drawn cs db)
          else if existsb (has_id (r_id row)) (table db)
          then (inl UniqueViolation, drawn cs db)
          else (inr (mkResult [row] 1),
                mkDb (table db ++ [row]) (serial (drawn cs db)))
      end
  | SelectById id =>
      match bind_value c_id id with
      | inr (JNum n) =>
          let found := filter (has_id n) (table db) in
          (inr (mkResult found (length found)), db)
      | inr _ => (inl DatatypeMismatch, db)
      | inl e => (inl e, db)
      end
  | SelectAll where_status order_by direction =>
      let filtered :=
        match where_status with
        | None => inr (table db)
        | Some v =>
            match bind_value c_status v with
            | inr s =>
                inr (filter (fun r => match cell_compare (r_status r) s with
                                      | Eq => negb (nullish s)
                                      | _ => false
                                      end) (table db))
            | inl e => inl e
            end
        end in
      match filtered, order_by, direction with
      | inl e, _, _ => (inl e, db)
      | inr _, None, Some _ => (inl SyntaxError, db)
      | inr l, None, None => (inr (mkResult l (length l)), db)
      | inr l, Some c, None =>
          let l' := sort_rows (row_leb c ASC) l in
          (inr (mkResult l' (length l')), db)
      | inr l, Some c, Some d =>
          let l' := sort_rows (row_leb c d) l in
          (inr (mkResult l' (length l')), db)
      end
  | Update values edited_at id =>
      if is_undefined edited_at || is_undefined id
      then (inl UndefinedValue, db)
      else
      match values with
      | [] => (inl SyntaxError, db)
      | _ =>
        match bind_cells values, bind_value c_edited_at edited_at, bind_value c_id id with
        | inl e, _, _ | _, inl e, _ | _, _, inl e => (inl e, db)
        | inr cs, inr t, inr (JNum n) =>
            if assigns c_edited_at cs then (inl SyntaxError, db)
            else
              let change r := set_cell c_edited_at t (assign cs r) in
              let changed := map change (filter (has_id n) (table db)) in
              if writes_null cs && existsb (has_id n) (table db)
              then (inl NotNullViolation, db)
              else
                (inr (mkResult changed (length changed)),
                 mkDb (filter (fun r => negb (has_id n r)) (table db) ++ changed)
                      (serial db))
        | inr _, inr _, inr _ => (inl DatatypeMismatch, db)
        end
      end
  | Delete id =>
      match bind_value c_id id with
      | inr (JNum n) =>
          (inr (mkResult [] (length (filter (has_id n) (table db)))),
           mkDb (filter (fun r => negb (has_id n r)) (table db)) (serial db))
      | inr _ => (inl DatatypeMismatch, db)
      | inl e => (inl e, db)
      end
  end.

(* ===================================================================== *)
(** * Handlers as computations *)
(* ===================================================================== *)

(** What the environment does just before the service touches the pool or
    the connection: nothing, make the call fail, or let other clients
    commit (the table becomes [rows]). *)
Inductive Ext : Type :=
| Quiet
| Fault (e : Error)
| Commit (rows : list Row).

(** The world a handler runs in: the database, the environment's schedule
    for the coming storage calls (an exhausted schedule is quiet), and the
    clock as the sequence of its readings. *)
Record World : Type := mkWorld {
  db : Database;
  schedule : list Ext;
  time_at : nat -> Timestamp;
  reads : nat
}.

Inductive StatusCode : Type :=
| OK | Created | BadRequest | NotFound | InternalServerError.

Definition status_number (c : StatusCode) : Z :=
  match c with
  | OK => 200 | Created => 201 | BadRequest => 400
  | NotFound => 404 | InternalServerError => 500
  end.

Inductive Payload : Type :=
| TodoPayload (todo : Obj JsVal)            (* { todo: ... } *)
| TodosPayload (todos : list (Obj JsVal)).  (* { todos: [...] } *)

Record Response : Type := mkResponse {
  statusCode : StatusCode;
  message : string;
  payload : option Payload
}.

(** The observable steps of a handler, in the order they happen. *)
Inductive Event : Type :=
| EReserve                                   (* sql.reserve() *)
| EQuery (s : Stmt)                          (* a statement is sent *)
| ERelease                                   (* connection.release() *)
| ELog (text : string) (err : option Error)  (* console.error(text[, err]) *)
| ESend (r : Response).                      (* res.send(r) *)

Record Run (A : Type) : Type := mkRun {
  outcome : Error + A;      (* [inl e]: the computation threw [e] *)
  final : World;
  events : list Event
}.
Arguments mkRun {A}.
Arguments outcome {A}.
Arguments final {A}.
Arguments events {A}.

Definition M (A : Type) : Type := World -> Run A.

Definition ret {A} (a : A) : M A := fun w => mkRun (inr a) w [].

Definition throw {A} (e : Error) : M A := fun w => mkRun (inl e) w [].

Definition bind {A B} (m : M A) (k : A -> M B) : M B :=
  fun w =>
    let r := m w in
    match outcome r with
    | inl e => mkRun (inl e) (final r) (events r)
    | inr a =>
        let r' := k a (final r) in
        mkRun (outcome r') (final r') (events r ++ events r')
    end.

(** [try { m } catch (error) { h error }]. *)
Definition tryCatch {A} (m : M A) (h : Error -> M A) : M A :=
  fun w =>
    let r := m w in
    match outcome r with
    | inl e =>
        let r' := h e (final r) in
        mkRun (outcome r') (final r') (events r ++ events r')
    | inr a => r
    end.

Declare Scope js_scope.
Delimit Scope js_scope with js.
Notation "x <- m ;; k" := (bind m (fun x => k))
  (at level 61, m at next level, right associativity) : js_scope.
Notation "m ;; k" := (bind m (fun _ => k))
  (at level 61, right associativity) : js_scope.
Open Scope js_scope.

Definition emit (e : Event) : M unit := fun w => mkRun (inr tt) w [e].

(** The environment takes its next scheduled step. *)
Definition env_step : M unit :=
  fun w =>
    match schedule w with
    | [] => mkRun (inr tt) w []
    | Quiet :: later =>
        mkRun (inr tt) (mkWorld (db w) later (time_at w) (reads w)) []
    | Fault e :: later =>
        mkRun (inl e) (mkWorld (db w) later (time_at w) (reads w)) []
    | Commit rows :: later =>
        mkRun (inr tt)
          (mkWorld (mkDb rows (serial (db w))) later (time_at w) (reads w)) []
    end.

(** [await sql.reserve()]. *)
Definition reserve : M unit := emit EReserve ;; env_step.

(** [await connection.release()]. *)
Definition release : M unit := emit ERelease.

(** [await connection`...`]. *)
Definition query (s : Stmt) : M QueryResult :=
  emit (EQuery s) ;;
  env_step ;;
  fun w =>
    let (res, db') := exec s (db w) in
    mkRun res (mkWorld db' (schedule w) (time_at w) (reads w)) [].

(** Modelled from the spec: [createUTCDate] of [src/utils] is missing from
    the sources; without an argument the spec gives it as the current UTC
    time, here the next reading of the clock. *)
Definition createUTCDate : M JsVal :=
  fun w =>
    mkRun (inr (JDate (time_at w (reads w))))
          (mkWorld (db w) (schedule w) (time_at w) (S (reads w))) [].

(** [console.error]. *)
Definition console_error (text : string) (err : option Error) : M unit :=
  emit (ELog text err).

(** [await res.send({ statusCode, message, payload })]; writing the
    response is taken to succeed. *)
Definition send (c : StatusCode) (msg : string) (p : option Payload) : M unit :=
  emit (ESend (mkResponse c msg p)).

(** The responses among the events, and the storage steps among them. *)
Fixpoint sent (l : list Event) : list Response :=
  match l with
  | [] => []
  | ESend r :: t => r :: sent t
  | _ :: t => sent t
  end.

Fixpoint logged (l : list Event) : list (string * option Error) :=
  match l with
  | [] => []
  | ELog s e :: t => (s, e) :: logged t
  | _ :: t => logged t
  end.

Definition is_storage (e : Event) : bool :=
  match e with
  | EReserve | EQuery _ | ERelease => true
  | _ => false
  end.

Definition storage_calls (l : list Event) : list Event := filter is_storage l.

(* ===================================================================== *)
(** * The Todo entity ([src/models/Todo.ts]) *)
(* ===================================================================== *)

Module Todo.

(** An instance: its [props].  The [sql] pool it also holds is the world. *)
Record t : Type := new { props : Obj JsVal }.

(** [convertToCase(snakeToCamel, row)]; going through the keys of
    [undefined] is a TypeError. *)
Definition camelRow (row : option Row) : M (Obj JsVal) :=
  match row with
  | Some r => ret (convertToCase snakeToCamel (row_object r))
  | None => throw TypeError
  end.

Definition create (props : Obj JsVal) : M t :=
  reserve ;;
  createdAt <- (if nullish (prop props "createdAt")
                then createUTCDate
                else ret (prop props "createdAt")) ;;
  let props := obj_set props "createdAt" createdAt in
  result <- query (Insert (convertToCase camelToSnake props)) ;;
  release ;;
  camel <- camelRow (hd_error (rows result)) ;;
  ret (new camel).

Definition read (id : Z) : M (option t) :=
  reserve ;;
  result <- query (SelectById (JNum id)) ;;
  release ;;
  match hd_error (rows result) with
  | None => ret None
  | Some row => camel <- camelRow (Some row) ;; ret (Some (new camel))
  end.

Definition getSortBy (sortBy : string) : Column :=
  if sortBy =? "title" then c_title
  else if sortBy =? "description" then c_description
  else if sortBy =? "status" then c_status
  else if sortBy =? "dueAt" then c_due_at
  else if sortBy =? "createdAt" then c_created_at
  else if sortBy =? "completedAt" then c_completed_at
  else if sortBy =? "editedAt" then c_edited_at
  else c_id.

Definition getOrderBy (orderBy : string) : Direction :=
  if orderBy =? "asc" then ASC else DESC.

(** [${arg ? sql`...` : sql``}]: the fragment is there when the optional
    string argument is truthy, that is given and not empty. *)
Definition fragment {A} (arg : option string) (f : string -> A) : option A :=
  match arg with
  | Some s => if s =? "" then None else Some (f s)
  | None => None
  end.

Definition readAll (filters : option (Obj JsVal)) (sortBy orderBy : option string)
  : M (list t) :=
  reserve ;;
  let status := match filters with
                | Some f => prop f "status"
                | None => JUndefined
                end in
  result <- query (SelectAll
                     (if truthy status then Some status else None)
                     (fragment sortBy getSortBy)
                     (fragment orderBy getOrderBy)) ;;
  release ;;
  ret (map (fun row => new (convertToCase snakeToCamel (row_object row)))
           (rows result)).

Definition update (this : t) (updateProps : Obj JsVal) : M t :=
  reserve ;;
  let values := convertToCase camelToSnake updateProps in
  now <- createUTCDate ;;
  result <- query (Update values now (prop (props this) "id")) ;;
  release ;;
  camel <- camelRow (hd_error (rows result)) ;;
  ret (new (obj_spread (props this) camel)).

Definition delete (this : t) : M bool :=
  reserve ;;
  result <- query (Delete (prop (props this) "id")) ;;
  release ;;
  ret (Nat.eqb (count result) 1).

Definition markComplete (this : t) : M t :=
  completedAt <- createUTCDate ;;
  update this [("status", JStr "complete"); ("completedAt", completedAt)].

End Todo.

(* ===================================================================== *)
(** * The controller ([src/controllers/TodoController.ts]) *)
(* ===================================================================== *)

(** A request: the parsed body, the query string as key/value pairs in
    order, and the [:id] path parameter as [getId()] parses it ([None] is
    NaN).  The body is an object: a request that comes without one, on
    which [createTodo] and [updateTodo] fail reading [req.body.title]
    before their [try], is not among these requests. *)
Record Request : Type := mkRequest {
  body : Obj JsVal;
  searchParams : list (string * string);
  id : option Z
}.

(** [URLSearchParams.get]: the first value of the key, or [null]. *)
Definition searchParam (req : Request) (k : string) : option string :=
  obj_find k (searchParams req).

(** Truthiness of a [string | null]. *)
Definition present (s : option string) : bool :=
  match s with
  | Some s => negb (s =? "")
  | None => false
  end.

(** [s === lit] for a [string | null]. *)
Definition is_exactly (s : option string) (lit : string) : bool :=
  match s with
  | Some x => x =? lit
  | None => false
  end.

Definition isValidTodoProps (props : Obj JsVal) : bool :=
  match obj_find "title" props, obj_find "description" props with
  | Some (JStr _), Some (JStr _) => true
  | _, _ => false
  end.

Definition isSortByValid (sortBy : string) : bool :=
  (sortBy =? "id") ||
  (sortBy =? "title") ||
  (sortBy =? "description") ||
  (sortBy =? "dueAt") ||
  (sortBy =? "createdAt") ||
  (sortBy =? "updatedAt").

Definition isOrderByValid (orderBy : string) : bool :=
  (orderBy =? "asc") || (orderBy =? "desc").

Definition getTodoList (req : Request) : M unit :=
  let statusFilter := searchParam req "status" in
  let sortBy := match searchParam req "sortBy" with Some s => s | None => "id" end in
  let orderBy := match searchParam req "orderBy" with Some s => s | None => "asc" end in
  if present statusFilter
     && negb (is_exactly statusFilter "incomplete")
     && negb (is_exactly statusFilter "complete")
  then send BadRequest "Invalid filter parameter." None
  else if negb (sortBy =? "") && negb (isSortByValid sortBy)
  then send BadRequest "Invalid sortBy parameter." None
  else if negb (orderBy =? "") && negb (isOrderByValid orderBy)
  then send BadRequest "Invalid orderBy parameter." None
  else
    todos <- tryCatch
               (Todo.readAll
                  (Some [("status", match statusFilter with
                                    | Some s => JStr s
                                    | None => JNull
                                    end)])
                  (Some sortBy) (Some orderBy))
               (fun error =>
                  let message := "Error while getting todo list: " ++ error_text error in
                  console_error message None ;;
                  send InternalServerError message None ;;
                  ret []) ;;
    send OK "Todo list retrieved" (Some (TodosPayload (map Todo.props todos))).

Definition getTodo (req : Request) : M unit :=
  match id req with
  | None => send BadRequest "Invalid ID" None
  | Some id =>
      todo <- tryCatch
                (Todo.read id)
                (fun error =>
                   let message := "Error while getting todo list: " ++ error_text error in
                   console_error message None ;;
                   send InternalServerError message None ;;
                   ret None) ;;
      match todo with
      | Some todo => send OK "Todo retrieved" (Some (TodoPayload (Todo.props todo)))
      | None => send NotFound "Not found" None
      end
  end.

Definition deleteTodo (req : Request) : M unit :=
  match id req with
  | None => send BadRequest "Invalid ID" None
  | Some id =>
      tryCatch
        (todo <- Todo.read id ;;
         match todo with
         | None => send NotFound "Not found" None
         | Some todo =>
             deleted <- Todo.delete todo ;;
             if deleted
             then send OK "Todo deleted successfully!"
                    (Some (TodoPayload (Todo.props todo)))
             else send InternalServerError "Error while deleting todo." None
         end)
        (fun error => console_error "Error while deleting todo:" (Some error))
  end.

Definition completeTodo (req : Request) : M unit :=
  match id req with
  | None => send BadRequest "Invalid ID" None
  | Some id =>
      tryCatch
        (todo <- Todo.read id ;;
         match todo with
         | Some todo =>
             todo <- Todo.markComplete todo ;;
             send OK "Todo marked as complete!"
               (Some (TodoPayload (Todo.props todo)))
         | None => send NotFound "Not found" None
         end)
        (fun error => console_error "Error while marking todo as complete:" (Some error))
  end.

Section DueDates.

(** [createUTCDate(new Date(v))] for a body value [v]: the date parser of
    the runtime and the one-argument form of [createUTCDate] of
    [src/utils], neither of which is in the sources. *)
Variable utcDateOf : JsVal -> JsVal.

Definition createTodo (req : Request) : M unit :=
  createdAt <- createUTCDate ;;
  let todoProps := [("title", prop (body req) "title");
                    ("description", prop (body req) "description");
                    ("status", JStr "incomplete");
                    ("createdAt", createdAt)] in
  let todoProps := if truthy (prop (body req) "dueAt")
                   then obj_set todoProps "dueAt" (utcDateOf (prop (body req) "dueAt"))
                   else todoProps in
  todo <- tryCatch
            (todo <- Todo.create todoProps ;; ret (Some todo))
            (fun error =>
               console_error "Error while creating todo:" (Some error) ;;
               ret None) ;;
  match todo with
  | None => send InternalServerError "Error while creating todo" None
  | Some todo =>
      send Created "Todo created successfully!"
        (Some (TodoPayload (Todo.props todo)))
  end.

Definition updateTodo (req : Request) : M unit :=
  match id req with
  | None => send BadRequest "Invalid ID" None
  | Some id =>
      let todoProps : Obj JsVal := [] in
      let todoProps := if truthy (prop (body req) "title")
                       then obj_set todoProps "title" (prop (body req) "title")
                       else todoProps in
      let todoProps := if truthy (prop (body req) "description")
                       then obj_set todoProps "description" (prop (body req) "description")
                       else todoProps in
      let todoProps := if truthy (prop (body req) "dueAt")
                       then obj_set todoProps "dueAt" (utcDateOf (prop (body req) "dueAt"))
                       else todoProps in
      tryCatch
        (todo <- Todo.read id ;;
         match todo with
         | Some todo =>
             todo <- Todo.update todo todoProps ;;
             send OK "Todo updated successfully!"
               (Some (TodoPayload (Todo.props todo)))
         | None => send NotFound "Not found" None
         end)
        (fun error => console_error "Error while updating todo:" (Some error))
  end.

End DueDates.

(* ===================================================================== *)
(** * Vocabulary of the properties *)
(* ===================================================================== *)

(** The environment stays quiet for the next [n] storage steps. *)
Fixpoint calm (n : nat) (sched : list Ext) : bool :=
  match n, sched with
  | O, _ => true
  | S _, [] => true
  | S n', Quiet :: later => calm n' later
  | S _, _ :: _ => false
  end.

(** The value an entity shows for a column: the camelCase property. *)
Definition todo_cell (c : Column) (todo : Todo.t) : JsVal :=
  prop (Todo.props todo) (snakeToCamel (column_name c)).

(** A sequence of entities in non-decreasing, respectively non-increasing,
    order of a column. *)
Definition ascending (c : Column) (todos : list Todo.t) : Prop :=
  Sorted (fun a b => cell_leb (todo_cell c a) (todo_cell c b) = true) todos.

Definition descending (c : Column) (todos : list Todo.t) : Prop :=
  Sorted (fun a b => cell_leb (todo_cell c b) (todo_cell c a) = true) todos.

Definition status_codes (l : list Event) : list StatusCode :=
  map statusCode (sent l).

Definition bad_request (msg : string) : Event :=
  ESend (mkResponse BadRequest msg None).

(** A computation that neither responds nor prints: whatever it does is
    between it and the storage. *)
Definition silent {A} (m : M A) : Prop :=
  forall w, sent (events (m w)) = [] /\ logged (events (m w)) = [].

(** The three checks of [getTodoList], as its [if] conditions read. *)
Definition statusFilterOf (req : Request) : option string :=
  searchParam req "status".

Definition sortByOf (req : Request) : string :=
  match searchParam req "sortBy" with Some s => s | None => "id" end.

Definition orderByOf (req : Request) : string :=
  match searchParam req "orderBy" with Some s => s | None => "asc" end.

Definition status_check_fails (req : Request) : bool :=
  present (statusFilterOf req)
  && negb (is_exactly (statusFilterOf req) "incomplete")
  && negb (is_exactly (statusFilterOf req) "complete").

Definition sortBy_check_fails (req : Request) : bool :=
  negb (sortByOf req =? "") && negb (isSortByValid (sortByOf req)).

Definition orderBy_check_fails (req : Request) : bool :=
  negb (orderByOf req =? "") && negb (isOrderByValid (orderByOf req)).

(** The arguments [getTodoList] hands to [Todo.readAll]. *)
Definition listFilters (req : Request) : option (Obj JsVal) :=
  Some [("status", match statusFilterOf req with
                   | Some s => JStr s
                   | None => JNull
                   end)].

(** The message of the 500 that [getTodoList] and [getTodo] send. *)
Definition list_error_message (e : Error) : string :=
  "Error while getting todo list: " ++ error_text e.

(** The props object [createTodo] builds from the body, given the clock
    reading [createdAt]. *)
Definition createProps (utcDateOf : JsVal -> JsVal) (req : Request)
           (createdAt : JsVal) : Obj JsVal :=
  let todoProps := [("title", prop (body req) "title");
                    ("description", prop (body req) "description");
                    ("status", JStr "incomplete");
                    ("createdAt", createdAt)] in
  if truthy (prop (body req) "dueAt")
  then obj_set todoProps "dueAt" (utcDateOf (prop (body req) "dueAt"))
  else todoProps.

(** [a] may come before [b] under the order [le]. *)
Definition in_order (le : Row -> Row -> bool) (a b : Row) : Prop := le a b = true.

(** ** Sample data *)

Definition milk : Row :=
  mkRow 1 (JStr "Buy milk") (JStr "2%") (JStr "incomplete")
        JNull (JDate 1000%Z) JNull JNull.

Definition bread : Row :=
  mkRow 2 (JStr "Bake bread") (JStr "rye") (JStr "complete")
        JNull (JDate 2000%Z) (JDate 2500%Z) JNull.

Definition pantry : Database := mkDb [milk; bread] 3.

Definition wall_clock (n : nat) : Timestamp := (5000 + Z.of_nat n)%Z.

(** A world over the sample table with a given schedule. *)
Definition kitchen (sched : list Ext) : World := mkWorld pantry sched wall_clock 0.

(** A date parser for the samples: a number is its epoch time, anything
    else is an invalid date. *)
Definition epoch_date (v : JsVal) : JsVal :=
  match v with
  | JNum n => JDate n
  | _ => JOther
  end.

(** [GET /todos?...], [POST /todos] with a body, and a request on
    [/todos/:id]. *)
Definition list_request (q : list (string * string)) : Request := mkRequest [] q None.

Definition post_request (b : Obj JsVal) : Request := mkRequest b [] None.

Definition id_request (n : Z) : Request := mkRequest [] [] (Some n).

Definition camel_sample : Obj nat := [("createdAt", 1); ("dueAt", 2); ("title", 3)].

Definition snake_sample : Obj nat := [("created_at", 1); ("due_at", 2); ("title", 3)].

(** The entity [readAll] and [read] build from a result row. *)
Definition todo_of_row (r : Row) : Todo.t :=
  Todo.new (convertToCase snakeToCamel (row_object r)).

(** The [status] of a filters argument has the type [TodoProps] gives it: a
    string, or nothing. *)
Definition filters_typed (filters : option (Obj JsVal)) : bool :=
  match filters with
  | None => true
  | Some f =>
      match prop f "status" with
      | JUndefined | JNull | JStr _ => true
      | _ => false
      end
  end.

(** No WHERE clause: the filters carry no truthy [status]. *)
Definition unfiltered (filters : option (Obj JsVal)) : bool :=
  match filters with
  | None => true
  | Some f => negb (truthy (prop f "status"))
  end.

(** The environment fails the very next storage step. *)
Definition faulted (w : World) : bool :=
  match schedule w with
  | Fault _ :: _ => true
  | _ => false
  end.

(** The id sequence is ahead of the table: its next value is an id, and is
    not taken. *)
Definition serial_fresh (d : Database) : bool :=
  in_int4 (serial d) && negb (existsb (has_id (serial d)) (table d)).

(** The body's [dueAt], when truthy, parses to a date. *)
Definition dueAt_parses (utcDateOf : JsVal -> JsVal) (req : Request) : bool :=
  if truthy (prop (body req) "dueAt")
  then match utcDateOf (prop (body req) "dueAt") with
       | JDate _ => true
       | _ => false
       end
  else true.

(** The row an INSERT of [createTodo] writes. *)
Definition inserted_row (serial : Z) (title description due created : JsVal) : Row :=
  mkRow serial title description (JStr "incomplete") due created JNull JNull.

(** What [markComplete] passes to [update], given the clock reading. *)
Definition completeProps (completedAt : JsVal) : Obj JsVal :=
  [("status", JStr "complete"); ("completedAt", completedAt)].

(** A row as the UPDATE of [markComplete] leaves it. *)
Definition completed_row (completedAt editedAt : JsVal) (r : Row) : Row :=
  set_cell c_edited_at editedAt
    (set_cell c_completed_at completedAt
       (set_cell c_status (JStr "complete") r)).

(** The current reading of the clock, and the world once it has been read. *)
Definition now (w : World) : JsVal := JDate (time_at w (reads w)).

Definition ticked (w : World) : World :=
  mkWorld (db w) (schedule w) (time_at w) (S (reads w)).

(** ** Vocabulary of the further properties *)

(** The props object [updateTodo] builds from the body: only the truthy
    fields among [title], [description] and [dueAt]. *)
Definition updateProps (utcDateOf : JsVal -> JsVal) (req : Request) : Obj JsVal :=
  let todoProps : Obj JsVal := [] in
  let todoProps := if truthy (prop (body req) "title")
                   then obj_set todoProps "title" (prop (body req) "title")
                   else todoProps in
  let todoProps := if truthy (prop (body req) "description")
                   then obj_set todoProps "description" (prop (body req) "description")
                   else todoProps in
  if truthy (prop (body req) "dueAt")
  then obj_set todoProps "dueAt" (utcDateOf (prop (body req) "dueAt"))
  else todoProps.

(** The shape [updateTodo], [deleteTodo] and [completeTodo] share once the
    id is known: read the todo inside a [try], answer 404 when there is
    none, go on with [found] when there is one, and print whatever is
    thrown. *)
Definition guarded (n : Z) (label : string) (found : Todo.t -> M unit) : M unit :=
  tryCatch
    (todo <- Todo.read n ;;
     match todo with
     | Some todo => found todo
     | None => send NotFound "Not found" None
     end)
    (fun error => console_error label (Some error)).

Definition not_found : Event := ESend (mkResponse NotFound "Not found" None).

(** The statement [Todo.read] sends. *)
Definition read_events (n : Z) : list Event :=
  [EReserve; EQuery (SelectById (JNum n)); ERelease].

Definition is_release (e : Event) : bool :=
  match e with
  | ERelease => true
  | _ => false
  end.

Definition is_query (e : Event) : bool :=
  match e with
  | EQuery _ => true
  | _ => false
  end.

(** No other client commits while the handler runs. *)
Definition no_commits (sched : list Ext) : bool :=
  forallb (fun x => match x with Commit _ => false | _ => true end) sched.

(** The invariant of the data model on one row: a complete todo has its
    completion time. *)
Definition complete_has_date (r : Row) : bool :=
  match r_status r with
  | JStr s => if s =? "complete" then negb (nullish (r_completed_at r)) else true
  | _ => true
  end.

Definition consistent (d : Database) : Prop :=
  forallb complete_has_date (table d) = true.

(** [keeps I m]: as long as no other client commits, running [m] from a
    database satisfying [I] ends in a database satisfying [I]. *)
Definition keeps (I : Database -> Prop) {A} (m : M A) : Prop :=
  forall w,
    no_commits (schedule w) = true -> I (db w) ->
    no_commits (schedule (final (m w))) = true /\ I (db (final (m w))).

(** A statement that leaves [I] standing. *)
Definition stmt_keeps (I : Database -> Prop) (s : Stmt) : Prop :=
  forall d, I d -> I (snd (exec s d)).

(** The cells a column list writes, when the statement is accepted. *)
Definition cells_of (o : Obj JsVal) : list (Column * JsVal) :=
  map (fun kv => let c := match column_of_name (fst kv) with
                          | Some c => c
                          | None => c_id
                          end in
                 (c, stored c (snd kv))) o.

(** A column list that writes neither [status] nor [completed_at]. *)
Definition spares_completion (cs : list (Column * JsVal)) : bool :=
  forallb (fun cv => match fst cv with
                     | c_status | c_completed_at => false
                     | _ => true
                     end) cs.

(** The rows of a given status. *)
Definition has_status (s : string) (r : Row) : bool :=
  match r_status r with
  | JStr x => x =? s
  | _ => false
  end.

(** The 200 of [getTodoList] for a list of rows. *)
Definition list_response (l : list Row) : Response :=
  mkResponse OK "Todo list retrieved"
    (Some (TodosPayload (map (fun r => Todo.props (todo_of_row r)) l))).

(** A run that returned rather than threw. *)
Definition returned {A} (r : Run A) : bool :=
  match outcome r with
  | inr _ => true
  | inl _ => false
  end.

(** What an operation that reserves, sends [s] and releases leaves behind:
    the reserve attempt alone when that fails, the statement without the
    release when the operation throws later, all three when it returns. *)
Definition scoped_trace (s : Stmt) (reserve_failed did_return : bool) : list Event :=
  if reserve_failed then [EReserve]
  else if did_return then [EReserve; EQuery s; ERelease]
  else [EReserve; EQuery s].

(** The rows [getTodoList] lists for a request: those of the status asked
    for, all of them without a (non-empty) status. *)
Definition listed (req : Request) (l : list Row) : list Row :=
  match statusFilterOf req with
  | Some s => if s =? "" then l else filter (has_status s) l
  | None => l
  end.

(** A body field that is a string, or is not truthy (and so is left out). *)
Definition string_or_falsy (v : JsVal) : bool :=
  match v with
  | JStr _ => true
  | _ => negb (truthy v)
  end.

(** The fields [updateTodo] takes from the body have the types [TodoProps]
    gives them. *)
Definition update_typed (utcDateOf : JsVal -> JsVal) (req : Request) : bool :=
  string_or_falsy (prop (body req) "title")
  && string_or_falsy (prop (body req) "description")
  && dueAt_parses utcDateOf req.

(** The value a field has after [updateTodo]: the body's when that is
    truthy, the stored one otherwise. *)
Definition updated (given new stored : JsVal) : JsVal :=
  if truthy given then new else stored.

(* ===================================================================== *)
(** * Properties of the case converter *)
(* ===================================================================== *)

Section CaseConverterFacts.

Lemma lower_facts (c : ascii) :
  is_lower c = true ->
  is_upper c = false /\ Ascii.eqb c "_" = false /\ to_lower c = c /\
  is_upper (to_upper c) = true /\ to_lower (to_upper c) = c.
Proof.
  destruct c as [[] [] [] [] [] [] [] []]; vm_compute;
    intros H; try discriminate H; repeat split.
Qed.

Lemma append_empty_r (s : string) : s ++ "" = s.
Proof. induction s; simpl; congruence. Qed.

Lemma append_assoc (a b c : string) : (a ++ b) ++ c = a ++ (b ++ c).
Proof. induction a; simpl; congruence. Qed.

Lemma prepend_append (a b : string) (ws : list string) :
  prepend (a ++ b) ws = prepend a (prepend b ws).
Proof. destruct ws; simpl; now rewrite ?append_assoc. Qed.

Lemma split_camel_nonempty (s : string) : split_camel s <> [].
Proof.
  destruct s as [|c r]; simpl; try discriminate.
  destruct (is_upper c); try discriminate.
  destruct (split_camel r); discriminate.
Qed.

Lemma split_snake_nonempty (s : string) : split_snake s <> [].
Proof.
  destruct s as [|c r]; simpl; try discriminate.
  destruct (Ascii.eqb c "_"); try discriminate.
  destruct (split_snake r); discriminate.
Qed.

Lemma prepend_empty (ws : list string) : ws <> [] -> prepend "" ws = ws.
Proof. destruct ws; [congruence | reflexivity]. Qed.

Lemma split_camel_lower (w s : string) :
  string_forall is_lower w = true ->
  split_camel (w ++ s) = prepend w (split_camel s).
Proof.
  induction w as [|c w IH]; simpl; intros H.
  - symmetry. apply prepend_empty, split_camel_nonempty.
  - apply andb_prop in H as [Hc Hw].
    destruct (lower_facts c Hc) as (-> & _).
    rewrite (IH Hw). now rewrite <- prepend_append.
Qed.

Lemma split_snake_lower (w s : string) :
  string_forall is_lower w = true ->
  split_snake (w ++ s) = prepend w (split_snake s).
Proof.
  induction w as [|c w IH]; simpl; intros H.
  - symmetry. apply prepend_empty, split_snake_nonempty.
  - apply andb_prop in H as [Hc Hw].
    destruct (lower_facts c Hc) as (_ & -> & _).
    rewrite (IH Hw). now rewrite <- prepend_append.
Qed.

Lemma concat_empty_cons (x : string) (xs : list string) :
  String.concat "" (x :: xs) = x ++ String.concat "" xs.
Proof. destruct xs; simpl; [now rewrite append_empty_r | reflexivity]. Qed.

Lemma is_word_inv (w : string) :
  is_word w = true ->
  exists c r, w = String c r /\ is_lower c = true /\ string_forall is_lower r = true.
Proof.
  unfold is_word. destruct w as [|c r]; simpl; [discriminate|].
  intros H. apply andb_prop in H as [Hc Hr]. now exists c, r.
Qed.

Lemma is_word_lower (w : string) :
  is_word w = true -> string_forall is_lower w = true.
Proof. unfold is_word. intros H. now apply andb_prop in H as [_ H]. Qed.

Lemma split_camel_capitalized (ws : list string) :
  forallb is_word ws = true ->
  split_camel (String.concat "" (map capitalize ws)) = "" :: map capitalize ws.
Proof.
  induction ws as [|w ws IH]; intros H; [reflexivity|].
  cbn [forallb] in H. apply andb_prop in H as [Hw Hws].
  cbn [map]. rewrite concat_empty_cons.
  destruct (is_word_inv w Hw) as (c & r & -> & Hc & Hr).
  destruct (lower_facts c Hc) as (_ & _ & _ & Hup & _).
  cbn [capitalize append split_camel]. rewrite Hup.
  rewrite (split_camel_lower r _ Hr), (IH Hws).
  cbn [prepend append]. now rewrite append_empty_r.
Qed.

Lemma lower_string_fixed (w : string) :
  string_forall is_lower w = true -> string_map to_lower w = w.
Proof.
  induction w as [|c w IH]; simpl; intros H; [reflexivity|].
  apply andb_prop in H as [Hc Hw].
  destruct (lower_facts c Hc) as (_ & _ & -> & _). now rewrite IH.
Qed.

Lemma lower_capitalize (w : string) :
  is_word w = true -> string_map to_lower (capitalize w) = w.
Proof.
  intros Hw. destruct (is_word_inv w Hw) as (c & r & -> & Hc & Hr).
  destruct (lower_facts c Hc) as (_ & _ & _ & _ & Hlu).
  simpl. now rewrite Hlu, lower_string_fixed.
Qed.

Lemma is_compound_inv (ws : list string) :
  is_compound ws = true ->
  exists w r, ws = w :: r /\ is_word w = true /\ forallb is_word r = true.
Proof.
  unfold is_compound. destruct ws as [|w r]; simpl; [discriminate|].
  intros H. apply andb_prop in H as [Hw Hr]. now exists w, r.
Qed.

Lemma camelToSnake_camel_of (ws : list string) :
  is_compound ws = true -> camelToSnake (camel_of ws) = snake_of ws.
Proof.
  intros H. destruct (is_compound_inv ws H) as (w & r & -> & Hw & Hr).
  unfold camelToSnake, camel_of, snake_of.
  rewrite (split_camel_lower w _ (is_word_lower w Hw)), (split_camel_capitalized r Hr).
  cbn [prepend map]. rewrite append_empty_r.
  rewrite (lower_string_fixed w (is_word_lower w Hw)).
  f_equal. f_equal. clear w Hw H.
  induction r as [|x r IH]; [reflexivity|].
  cbn [forallb] in Hr. apply andb_prop in Hr as [Hx Hr].
  cbn [map]. now rewrite (lower_capitalize x Hx), (IH Hr).
Qed.

Lemma split_snake_snake_of (ws : list string) :
  ws <> [] -> forallb is_word ws = true -> split_snake (snake_of ws) = ws.
Proof.
  unfold snake_of.
  induction ws as [|w ws IH]; [congruence|]. intros _ H.
  cbn [forallb] in H. apply andb_prop in H as [Hw Hws].
  destruct ws as [|y r].
  - cbn [String.concat]. rewrite <- (append_empty_r w) at 1.
    rewrite (split_snake_lower w "" (is_word_lower w Hw)).
    cbn. now rewrite append_empty_r.
  - change (String.concat "_" (w :: y :: r))
      with (w ++ String "_" (String.concat "_" (y :: r))).
    rewrite (split_snake_lower w _ (is_word_lower w Hw)).
    cbn [split_snake Ascii.eqb Bool.eqb]. rewrite IH by (auto; discriminate).
    cbn [prepend]. now rewrite append_empty_r.
Qed.

Lemma snakeToCamel_snake_of (ws : list string) :
  is_compound ws = true -> snakeToCamel (snake_of ws) = camel_of ws.
Proof.
  intros H. destruct (is_compound_inv ws H) as (w & r & -> & Hw & Hr).
  unfold snakeToCamel. rewrite split_snake_snake_of.
  - reflexivity.
  - discriminate.
  - cbn [forallb]. now rewrite Hw, Hr.
Qed.

Lemma camel_key_round_trip (k : string) :
  camel_key k -> snakeToCamel (camelToSnake k) = k.
Proof.
  intros (ws & H & ->).
  now rewrite camelToSnake_camel_of, snakeToCamel_snake_of.
Qed.

Lemma snake_key_round_trip (k : string) :
  snake_key k -> camelToSnake (snakeToCamel k) = k.
Proof.
  intros (ws & H & ->).
  now rewrite snakeToCamel_snake_of, camelToSnake_camel_of.
Qed.

End CaseConverterFacts.

Section ConvertFacts.
Context {V : Type}.

Lemma obj_set_fresh (o : Obj V) (k : string) (v : V) :
  ~ In k (obj_keys o) -> obj_set o k v = (o ++ [(k, v)])%list.
Proof.
  induction o as [|[k' v'] o IH]; simpl; intros H; [reflexivity|].
  destruct (String.eqb_spec k' k) as [->|_].
  - exfalso. apply H. now left.
  - rewrite IH; [reflexivity|]. intros Hin. apply H. now right.
Qed.

Lemma convert_fold (f : string -> string) (o acc : Obj V) :
  NoDup (obj_keys acc ++ map f (obj_keys o))%list ->
  fold_left (fun a kv => obj_set a (f (fst kv)) (snd kv)) o acc
  = (acc ++ map (fun kv => (f (fst kv), snd kv)) o)%list.
Proof.
  revert acc. induction o as [|[k v] o IH]; simpl; intros acc H.
  - now rewrite app_nil_r.
  - rewrite obj_set_fresh.
    + rewrite IH.
      * now rewrite <- app_assoc.
      * unfold obj_keys in *. rewrite map_app. simpl. now rewrite <- app_assoc.
    + apply NoDup_remove_2 in H. intros Hin. apply H.
      apply in_or_app. now left.
Qed.

Lemma convertToCase_map (f : string -> string) (o : Obj V) :
  NoDup (map f (obj_keys o)) ->
  convertToCase f o = map (fun kv => (f (fst kv), snd kv)) o.
Proof. intros H. unfold convertToCase. now rewrite convert_fold. Qed.

Lemma convertToCase_inverse (f g : string -> string) (o : Obj V) :
  NoDup (obj_keys o) ->
  (forall k, In k (obj_keys o) -> g (f k) = k) ->
  convertToCase g (convertToCase f o) = o.
Proof.
  intros Hnd Hgf.
  assert (Hkeys : map g (map f (obj_keys o)) = obj_keys o).
  { rewrite map_map. rewrite <- (map_id (obj_keys o)) at 2.
    now apply map_ext_in. }
  assert (Hf : NoDup (map f (obj_keys o))).
  { apply (NoDup_map_inv g). now rewrite Hkeys. }
  rewrite (convertToCase_map f o Hf).
  rewrite convertToCase_map.
  - rewrite map_map. cbn [fst snd].
    rewrite <- (map_id o) at 2. apply map_ext_in.
    intros [k v] Hin. cbn [fst snd]. rewrite Hgf; [reflexivity|].
    unfold obj_keys. now apply (in_map fst o (k, v)).
  - unfold obj_keys in *. rewrite !map_map. cbn [fst].
    rewrite (map_ext_in _ fst); [exact Hnd|].
    intros [k v] Hin. cbn [fst]. apply Hgf.
    now apply (in_map fst o (k, v)).
Qed.

End ConvertFacts.

(** C9.  On a mapping whose (distinct) keys are compound words of lowercase
    ASCII words, converting the keys camel to snake and back, or snake to
    camel and back, gives the mapping again, values included; key by key the
    two transforms undo each other. *)
Theorem convertToCase_round_trip :
  forall (V : Type) (o : Obj V),
    NoDup (obj_keys o) ->
    ((forall k, In k (obj_keys o) -> camel_key k) ->
     convertToCase snakeToCamel (convertToCase camelToSnake o) = o
     /\ obj_keys (convertToCase camelToSnake o) = map camelToSnake (obj_keys o)
     /\ map snd (convertToCase camelToSnake o) = map snd o)
    /\
    ((forall k, In k (obj_keys o) -> snake_key k) ->
     convertToCase camelToSnake (convertToCase snakeToCamel o) = o
     /\ obj_keys (convertToCase snakeToCamel o) = map snakeToCamel (obj_keys o)
     /\ map snd (convertToCase snakeToCamel o) = map snd o).
Proof.
  intros V o Hnd.
  assert (Hgen : forall f g : string -> string,
             (forall k, In k (obj_keys o) -> g (f k) = k) ->
             convertToCase g (convertToCase f o) = o
             /\ obj_keys (convertToCase f o) = map f (obj_keys o)
             /\ map snd (convertToCase f o) = map snd o).
  { intros f g Hgf. split; [now apply convertToCase_inverse|].
    assert (Hf : NoDup (map f (obj_keys o))).
    { apply (NoDup_map_inv g). rewrite map_map.
      rewrite (map_ext_in _ (fun k => k)) by exact Hgf. now rewrite map_id. }
    rewrite (convertToCase_map f o Hf). unfold obj_keys.
    rewrite !map_map. cbn [fst snd]. split; reflexivity. }
  split; intros Hkeys; apply Hgen; intros k Hk.
  - now apply camel_key_round_trip, Hkeys.
  - now apply snake_key_round_trip, Hkeys.
Qed.

(* ===================================================================== *)
(** * Running computations *)
(* ===================================================================== *)

Section MonadFacts.
Context {A B : Type}.

Lemma sent_app (a b : list Event) : sent (a ++ b) = (sent a ++ sent b)%list.
Proof.
  induction a as [|x a IH]; [reflexivity|].
  destruct x; simpl; now rewrite ?IH.
Qed.

Lemma logged_app (a b : list Event) : logged (a ++ b) = (logged a ++ logged b)%list.
Proof.
  induction a as [|x a IH]; [reflexivity|].
  destruct x; simpl; now rewrite ?IH.
Qed.

Lemma bind_ok (m : M A) (k : A -> M B) (w : World) (a : A) :
  outcome (m w) = inr a ->
  bind m k w = mkRun (outcome (k a (final (m w)))) (final (k a (final (m w))))
                     (events (m w) ++ events (k a (final (m w)))).
Proof. intros H. unfold bind. now rewrite H. Qed.

Lemma bind_throw (m : M A) (k : A -> M B) (w : World) (e : Error) :
  outcome (m w) = inl e ->
  bind m k w = mkRun (inl e) (final (m w)) (events (m w)).
Proof. intros H. unfold bind. now rewrite H. Qed.

Lemma tryCatch_ok (m : M A) (h : Error -> M A) (w : World) (a : A) :
  outcome (m w) = inr a -> tryCatch m h w = m w.
Proof. intros H. unfold tryCatch. now rewrite H. Qed.

Lemma tryCatch_throw (m : M A) (h : Error -> M A) (w : World) (e : Error) :
  outcome (m w) = inl e ->
  tryCatch m h w = mkRun (outcome (h e (final (m w)))) (final (h e (final (m w))))
                         (events (m w) ++ events (h e (final (m w)))).
Proof. intros H. unfold tryCatch. now rewrite H. Qed.

Lemma silent_bind (m : M A) (k : A -> M B) :
  silent m -> (forall a, silent (k a)) -> silent (bind m k).
Proof.
  intros Hm Hk w. unfold bind.
  destruct (outcome (m w)) as [e|a]; cbn [events].
  - apply Hm.
  - rewrite sent_app, logged_app.
    destruct (Hm w) as [-> ->], (Hk a (final (m w))) as [-> ->]. now split.
Qed.

End MonadFacts.

Lemma silent_ret {A} (a : A) : silent (ret a).
Proof. now split. Qed.

Lemma silent_throw {A} (e : Error) : silent (@throw A e).
Proof. now split. Qed.

Lemma silent_env_step : silent env_step.
Proof. intros w. unfold env_step. destruct (schedule w) as [|[] ?]; now split. Qed.

Lemma silent_reserve : silent reserve.
Proof.
  apply silent_bind; [now split | intros _; apply silent_env_step].
Qed.

Lemma silent_release : silent release.
Proof. now split. Qed.

Lemma silent_query (s : Stmt) : silent (query s).
Proof.
  apply silent_bind; [now split | intros _].
  apply silent_bind; [apply silent_env_step | intros _ w].
  destruct (exec s (db w)); now split.
Qed.

Lemma silent_createUTCDate : silent createUTCDate.
Proof. now split. Qed.

Lemma silent_camelRow (row : option Row) : silent (Todo.camelRow row).
Proof. destruct row; [apply silent_ret | apply silent_throw]. Qed.

Create HintDb silent.
#[export] Hint Resolve silent_ret silent_throw silent_reserve silent_release
  silent_query silent_createUTCDate silent_camelRow : silent.

Ltac silent_steps :=
  repeat (apply silent_bind; [auto with silent | intros ?]); auto with silent.

Lemma silent_create (props : Obj JsVal) : silent (Todo.create props).
Proof.
  unfold Todo.create.
  apply silent_bind; [auto with silent | intros _].
  apply silent_bind; [destruct (nullish _); auto with silent | intros ?].
  silent_steps.
Qed.

Lemma silent_read (n : Z) : silent (Todo.read n).
Proof.
  unfold Todo.read. silent_steps.
  destruct (hd_error _); silent_steps.
Qed.

Lemma silent_readAll filters sortBy orderBy :
  silent (Todo.readAll filters sortBy orderBy).
Proof. unfold Todo.readAll. silent_steps. Qed.

Lemma silent_update (this : Todo.t) (updateProps : Obj JsVal) :
  silent (Todo.update this updateProps).
Proof. unfold Todo.update. silent_steps. Qed.

Lemma silent_delete (this : Todo.t) : silent (Todo.delete this).
Proof. unfold Todo.delete. silent_steps. Qed.

Lemma silent_markComplete (this : Todo.t) : silent (Todo.markComplete this).
Proof.
  unfold Todo.markComplete.
  apply silent_bind; [auto with silent | intros ?; apply silent_update].
Qed.

(* ===================================================================== *)
(** * Properties of the controller *)
(* ===================================================================== *)

Lemma events_bind_prefix {A B} (m : M A) (k : A -> M B) (w : World) :
  exists rest, events (bind m k w) = (events (m w) ++ rest)%list.
Proof.
  unfold bind. destruct (outcome (m w)); cbn [events].
  - exists []. now rewrite app_nil_r.
  - eexists. reflexivity.
Qed.

Lemma events_tryCatch_prefix {A} (m : M A) (h : Error -> M A) (w : World) :
  exists rest, events (tryCatch m h w) = (events (m w) ++ rest)%list.
Proof.
  unfold tryCatch. destruct (outcome (m w)); cbn [events].
  - eexists. reflexivity.
  - exists []. now rewrite app_nil_r.
Qed.

Lemma reserve_first {B} (k : unit -> M B) (w : World) :
  exists rest, events (bind reserve k w) = EReserve :: rest.
Proof.
  destruct (events_bind_prefix reserve k w) as [rest ->].
  unfold reserve. destruct (events_bind_prefix (emit EReserve) (fun _ => env_step) w)
    as [rest' ->].
  cbn. eexists. reflexivity.
Qed.

Lemma readAll_reserves filters sortBy orderBy (w : World) :
  exists rest, events (Todo.readAll filters sortBy orderBy w) = EReserve :: rest.
Proof. apply reserve_first. Qed.

Lemma create_reserves (props : Obj JsVal) (w : World) :
  exists rest, events (Todo.create props w) = EReserve :: rest.
Proof. apply reserve_first. Qed.

Lemma getTodoList_checked (req : Request) (w : World) :
  status_check_fails req = false ->
  sortBy_check_fails req = false ->
  orderBy_check_fails req = false ->
  let run := Todo.readAll (listFilters req) (Some (sortByOf req))
               (Some (orderByOf req)) w in
  events (getTodoList req w)
  = (events run ++
     match outcome run with
     | inl e => [ELog (list_error_message e) None;
                 ESend (mkResponse InternalServerError (list_error_message e) None);
                 ESend (mkResponse OK "Todo list retrieved" (Some (TodosPayload [])))]
     | inr todos => [ESend (mkResponse OK "Todo list retrieved"
                              (Some (TodosPayload (map Todo.props todos))))]
     end)%list.
Proof.
  unfold status_check_fails, sortBy_check_fails, orderBy_check_fails,
    listFilters, statusFilterOf, sortByOf, orderByOf, getTodoList. cbv zeta.
  intros -> -> ->. unfold bind at 1, tryCatch.
  set (m := Todo.readAll _ _ _).
  destruct (outcome (m w)) eqn:E; cbn; rewrite ?E; cbn.
  - now rewrite <- app_assoc.
  - reflexivity.
Qed.

Lemma getTodoList_bad_status (req : Request) (w : World) :
  status_check_fails req = true ->
  getTodoList req w = mkRun (inr tt) w [bad_request "Invalid filter parameter."].
Proof.
  unfold status_check_fails, statusFilterOf, getTodoList. cbv zeta.
  intros ->. reflexivity.
Qed.

(** C5.  [getTodoList] checks the status filter, then [sortBy], then
    [orderBy]; the first check that fails answers 400 with its own message
    and ends the handler there: the world is untouched and the only event is
    that response, so no storage call is made.  [GET /todos?status=bogus] is
    such a request.  When all three pass, the first thing the handler does
    is reserve a connection. *)
Theorem getTodoList_validation_order :
  forall (req : Request) (w : World),
    (status_check_fails req = true ->
     getTodoList req w = mkRun (inr tt) w [bad_request "Invalid filter parameter."])
    /\ (status_check_fails req = false -> sortBy_check_fails req = true ->
        getTodoList req w = mkRun (inr tt) w [bad_request "Invalid sortBy parameter."])
    /\ (status_check_fails req = false -> sortBy_check_fails req = false ->
        orderBy_check_fails req = true ->
        getTodoList req w = mkRun (inr tt) w [bad_request "Invalid orderBy parameter."])
    /\ (status_check_fails req = false -> sortBy_check_fails req = false ->
        orderBy_check_fails req = false ->
        hd_error (events (getTodoList req w)) = Some EReserve)
    /\ (forall rest, searchParams req = ("status", "bogus") :: rest ->
        status_codes (events (getTodoList req w)) = [BadRequest]
        /\ storage_calls (events (getTodoList req w)) = []).
Proof.
  intros req w. split; [|split; [|split; [|split]]].
  4: { intros H1 H2 H3. rewrite (getTodoList_checked req w H1 H2 H3). cbv zeta.
       destruct (readAll_reserves (listFilters req) (Some (sortByOf req))
                   (Some (orderByOf req)) w) as [rest ->]. reflexivity. }
  4: { intros rest Hq. rewrite getTodoList_bad_status; [split; reflexivity|].
       unfold status_check_fails, statusFilterOf, searchParam. now rewrite Hq. }
  1: apply getTodoList_bad_status.
  all: unfold status_check_fails, sortBy_check_fails, orderBy_check_fails,
    statusFilterOf, sortByOf, orderByOf, getTodoList; cbv zeta.
  - intros -> ->. reflexivity.
  - intros -> -> ->. reflexivity.
Qed.

(** C1 (the code departs from the claim).  [sortBy=status],
    [sortBy=completedAt] and [sortBy=editedAt] name columns that
    [Todo.readAll] orders by, yet [getTodoList] refuses each with a 400 and
    never reaches the entity; it lets [sortBy=updatedAt] through, which
    [Todo.readAll] does not know and orders by [id].  A present but empty
    [sortBy] is not checked at all. *)
Theorem getTodoList_sortBy_whitelist_differs :
  forall (w : World) (b : Obj JsVal) (i : option Z),
    getTodoList (mkRequest b [("sortBy", "status")] i) w
    = mkRun (inr tt) w [bad_request "Invalid sortBy parameter."]
    /\ getTodoList (mkRequest b [("sortBy", "completedAt")] i) w
       = mkRun (inr tt) w [bad_request "Invalid sortBy parameter."]
    /\ getTodoList (mkRequest b [("sortBy", "editedAt")] i) w
       = mkRun (inr tt) w [bad_request "Invalid sortBy parameter."]
    /\ Todo.getSortBy "status" = c_status
    /\ Todo.getSortBy "completedAt" = c_completed_at
    /\ Todo.getSortBy "editedAt" = c_edited_at
    /\ sortBy_check_fails (mkRequest b [("sortBy", "updatedAt")] i) = false
    /\ Todo.getSortBy "updatedAt" = c_id
    /\ sortBy_check_fails (mkRequest b [("sortBy", "")] i) = false.
Proof. intros w b i. repeat split. Qed.

Section StorageErrors.
Variable utcDateOf : JsVal -> JsVal.

Lemma updateTodo_read_throws (req : Request) (n : Z) (w : World) (e : Error) :
  id req = Some n ->
  outcome (Todo.read n w) = inl e ->
  events (updateTodo utcDateOf req w)
  = (events (Todo.read n w) ++ [ELog "Error while updating todo:" (Some e)])%list.
Proof.
  intros Hid H. unfold updateTodo. rewrite Hid. cbv zeta.
  unfold tryCatch. rewrite (bind_throw _ _ _ _ H). reflexivity.
Qed.

Lemma deleteTodo_read_throws (req : Request) (n : Z) (w : World) (e : Error) :
  id req = Some n ->
  outcome (Todo.read n w) = inl e ->
  events (deleteTodo req w)
  = (events (Todo.read n w) ++ [ELog "Error while deleting todo:" (Some e)])%list.
Proof.
  intros Hid H. unfold deleteTodo. rewrite Hid.
  unfold tryCatch. rewrite (bind_throw _ _ _ _ H). reflexivity.
Qed.

Lemma completeTodo_read_throws (req : Request) (n : Z) (w : World) (e : Error) :
  id req = Some n ->
  outcome (Todo.read n w) = inl e ->
  events (completeTodo req w)
  = (events (Todo.read n w)
     ++ [ELog "Error while marking todo as complete:" (Some e)])%list.
Proof.
  intros Hid H. unfold completeTodo. rewrite Hid.
  unfold tryCatch. rewrite (bind_throw _ _ _ _ H). reflexivity.
Qed.

(** C2.  When the first [Todo.read] of [updateTodo], [deleteTodo] or
    [completeTodo] throws, the handler prints the error and sends nothing:
    no response of any status leaves it. *)
Theorem read_throws_no_response :
  forall (req : Request) (n : Z) (w : World) (e : Error),
    id req = Some n ->
    outcome (Todo.read n w) = inl e ->
    (sent (events (updateTodo utcDateOf req w)) = []
     /\ logged (events (updateTodo utcDateOf req w))
        = [("Error while updating todo:", Some e)])
    /\ (sent (events (deleteTodo req w)) = []
        /\ logged (events (deleteTodo req w))
           = [("Error while deleting todo:", Some e)])
    /\ (sent (events (completeTodo req w)) = []
        /\ logged (events (completeTodo req w))
           = [("Error while marking todo as complete:", Some e)]).
Proof.
  intros req n w e Hid H.
  rewrite (updateTodo_read_throws req n w e Hid H),
    (deleteTodo_read_throws req n w e Hid H),
    (completeTodo_read_throws req n w e Hid H).
  rewrite !sent_app, !logged_app.
  destruct (silent_read n w) as [-> ->]. repeat split.
Qed.

End StorageErrors.

Lemma getTodo_events (req : Request) (n : Z) (w : World) :
  id req = Some n ->
  events (getTodo req w)
  = (events (Todo.read n w) ++
     match outcome (Todo.read n w) with
     | inl e => [ELog (list_error_message e) None;
                 ESend (mkResponse InternalServerError (list_error_message e) None);
                 ESend (mkResponse NotFound "Not found" None)]
     | inr (Some todo) =>
         [ESend (mkResponse OK "Todo retrieved" (Some (TodoPayload (Todo.props todo))))]
     | inr None => [ESend (mkResponse NotFound "Not found" None)]
     end)%list.
Proof.
  intros Hid. unfold getTodo. rewrite Hid. unfold bind at 1, tryCatch.
  set (m := Todo.read n).
  destruct (outcome (m w)) as [e|[todo|]] eqn:E; cbn; rewrite ?E; cbn.
  - now rewrite <- app_assoc.
  - reflexivity.
  - reflexivity.
Qed.

(** C3.  A storage error in [getTodoList] or [getTodo] makes the handler
    send twice for the one request: [Todo.readAll] throwing gives a 500 and
    then, the catch block not returning, a 200 with an empty list;
    [Todo.read] throwing gives a 500 and then a 404. *)
Theorem storage_error_sends_twice :
  (forall (req : Request) (w : World) (e : Error),
     status_check_fails req = false ->
     sortBy_check_fails req = false ->
     orderBy_check_fails req = false ->
     outcome (Todo.readAll (listFilters req) (Some (sortByOf req))
                (Some (orderByOf req)) w) = inl e ->
     sent (events (getTodoList req w))
     = [mkResponse InternalServerError (list_error_message e) None;
        mkResponse OK "Todo list retrieved" (Some (TodosPayload []))])
  /\
  (forall (req : Request) (n : Z) (w : World) (e : Error),
     id req = Some n ->
     outcome (Todo.read n w) = inl e ->
     sent (events (getTodo req w))
     = [mkResponse InternalServerError (list_error_message e) None;
        mkResponse NotFound "Not found" None]).
Proof.
  split.
  - intros req w e H1 H2 H3 H.
    rewrite (getTodoList_checked req w H1 H2 H3). cbv zeta. rewrite H.
    rewrite sent_app.
    now destruct (silent_readAll (listFilters req) (Some (sortByOf req))
                    (Some (orderByOf req)) w) as [-> _].
  - intros req n w e Hid H.
    rewrite (getTodo_events req n w Hid), H.
    rewrite sent_app. now destruct (silent_read n w) as [-> _].
Qed.

(* ===================================================================== *)
(** * Properties of the entity *)
(* ===================================================================== *)

Ltac calm_cases w H :=
  destruct w as [[tbl ser] sched clock rd]; cbn [schedule db table serial] in *;
  destruct sched as [|[| |] [|[| |] sched]]; cbn in H; try discriminate H.

Lemma has_id_in_int4 (n : Z) (r : Row) : has_id n r = true -> in_int4 n = true.
Proof. unfold has_id. now intros [H _]%andb_true_iff. Qed.

Lemma exists_in_int4 (n : Z) (l : list Row) :
  existsb (has_id n) l = true -> in_int4 n = true.
Proof. intros (r & _ & H)%existsb_exists. exact (has_id_in_int4 n r H). Qed.

Lemma find_in_int4 (n : Z) (l : list Row) (r : Row) :
  find (has_id n) l = Some r -> in_int4 n = true.
Proof. intros [_ H]%find_some. exact (has_id_in_int4 n r H). Qed.

Lemma bind_id (n : Z) : in_int4 n = true -> bind_value c_id (JNum n) = inr (JNum n).
Proof. intros H. cbn. now rewrite H. Qed.

Lemma bind_id_refused (n : Z) :
  in_int4 n = false -> bind_value c_id (JNum n) = inl NumericValueOutOfRange.
Proof. intros H. cbn. now rewrite H. Qed.

Lemma filter_split_length {A} (p : A -> bool) (l : list A) :
  length l = length (filter p l) + length (filter (fun x => negb (p x)) l).
Proof.
  induction l as [|x l IH]; [reflexivity|]. simpl.
  destruct (p x); simpl; rewrite IH; [reflexivity | now rewrite Nat.add_succ_r].
Qed.

Lemma delete_calm (this : Todo.t) (n : Z) (w : World) :
  prop (Todo.props this) "id" = JNum n ->
  in_int4 n = true ->
  calm 2 (schedule w) = true ->
  outcome (Todo.delete this w)
  = inr (Nat.eqb (length (filter (has_id n) (table (db w)))) 1)
  /\ table (db (final (Todo.delete this w)))
     = filter (fun r => negb (has_id n r)) (table (db w))
  /\ events (Todo.delete this w) = [EReserve; EQuery (Delete (JNum n)); ERelease].
Proof.
  intros Hid Hn H. unfold Todo.delete. rewrite Hid.
  calm_cases w H; unfold bind, reserve, query, release, emit, env_step;
    cbn [outcome final events schedule db table serial time_at reads app exec];
    rewrite (bind_id n Hn); repeat split.
Qed.

Lemma deleteTodo_events (req : Request) (n : Z) (w : World) (todo : Todo.t) (deleted : bool) :
  id req = Some n ->
  outcome (Todo.read n w) = inr (Some todo) ->
  outcome (Todo.delete todo (final (Todo.read n w))) = inr deleted ->
  events (deleteTodo req w)
  = (events (Todo.read n w) ++ events (Todo.delete todo (final (Todo.read n w)))
     ++ [ESend (if deleted
                then mkResponse OK "Todo deleted successfully!"
                       (Some (TodoPayload (Todo.props todo)))
                else mkResponse InternalServerError "Error while deleting todo." None)])%list.
Proof.
  intros Hid Hr Hd. unfold deleteTodo. rewrite Hid.
  unfold tryCatch. rewrite (bind_ok _ _ _ _ Hr). cbn [outcome events final].
  rewrite (bind_ok _ _ _ _ Hd). cbn [outcome events final].
  destruct deleted; reflexivity.
Qed.

(** C6.  [Todo.delete] returns [true] exactly when the DELETE statement
    affected one row.  For an instance whose id is an int4 and a storage
    that answers, [delete] sends the one DELETE under that id and releases
    the connection; the table loses the rows stored under the id and no
    other; and what [delete] returns is whether the number of rows the
    table has lost is 1.  [deleteTodo] answers a [true] with 200 and the
    todo's props, and a [false] with 500 and an error message. *)
Theorem delete_true_iff_one_row :
  (forall (this : Todo.t) (n : Z) (w : World),
     prop (Todo.props this) "id" = JNum n ->
     in_int4 n = true ->
     calm 2 (schedule w) = true ->
     let run := Todo.delete this w in
     let affected := length (table (db w)) - length (table (db (final run))) in
     events run = [EReserve; EQuery (Delete (JNum n)); ERelease]
     /\ table (db (final run)) = filter (fun r => negb (has_id n r)) (table (db w))
     /\ affected = length (filter (has_id n) (table (db w)))
     /\ outcome run = inr (Nat.eqb affected 1)
     /\ (outcome run = inr true <-> affected = 1))
  /\
  (forall (req : Request) (n : Z) (w : World) (todo : Todo.t) (deleted : bool),
     id req = Some n ->
     outcome (Todo.read n w) = inr (Some todo) ->
     outcome (Todo.delete todo (final (Todo.read n w))) = inr deleted ->
     sent (events (deleteTodo req w))
     = [if deleted
        then mkResponse OK "Todo deleted successfully!"
               (Some (TodoPayload (Todo.props todo)))
        else mkResponse InternalServerError "Error while deleting todo." None]).
Proof.
  split.
  - intros this n w Hid Hn H run affected.
    destruct (delete_calm this n w Hid Hn H) as (Ho & Ht & He).
    assert (Ha : affected = length (filter (has_id n) (table (db w)))).
    { subst affected run. rewrite Ht.
      rewrite (filter_split_length (has_id n) (table (db w))) at 1.
      apply Nat.add_sub. }
    split; [exact He|]. split; [exact Ht|]. split; [exact Ha|].
    subst run. rewrite Ho, Ha. split; [reflexivity|]. split.
    + intros [= E]. now apply Nat.eqb_eq.
    + intros E. now rewrite E.
  - intros req n w todo deleted Hid Hr Hd.
    rewrite (deleteTodo_events req n w todo deleted Hid Hr Hd).
    rewrite !sent_app.
    destruct (silent_read n w) as [-> _].
    now destruct (silent_delete todo (final (Todo.read n w))) as [-> _].
Qed.

(** ** Runs under a quiet environment *)

Lemma bind_steps {A B} (m : M A) (k : A -> M B) w a w1 ev1 o w2 ev2 :
  m w = mkRun (inr a) w1 ev1 ->
  k a w1 = mkRun o w2 ev2 ->
  bind m k w = mkRun o w2 (ev1 ++ ev2).
Proof. intros Hm Hk. unfold bind. rewrite Hm. cbn. now rewrite Hk. Qed.

Lemma bind_stops {A B} (m : M A) (k : A -> M B) w e w1 ev1 :
  m w = mkRun (inl e) w1 ev1 ->
  bind m k w = mkRun (inl e) w1 ev1.
Proof. intros Hm. unfold bind. now rewrite Hm. Qed.

Lemma calm_tl (n : nat) (sched : list Ext) :
  calm (S n) sched = true -> calm 1 sched = true /\ calm n (tl sched) = true.
Proof.
  destruct sched as [|[] ?]; cbn; try discriminate; auto.
  destruct n; auto.
Qed.

Lemma env_step_calm d sched clock rd :
  calm 1 sched = true ->
  env_step (mkWorld d sched clock rd)
  = mkRun (inr tt) (mkWorld d (tl sched) clock rd) [].
Proof. destruct sched as [|[] ?]; cbn; try discriminate; reflexivity. Qed.

Lemma reserve_calm d sched clock rd :
  calm 1 sched = true ->
  reserve (mkWorld d sched clock rd)
  = mkRun (inr tt) (mkWorld d (tl sched) clock rd) [EReserve].
Proof.
  intros H. unfold reserve, bind. cbn.
  rewrite (env_step_calm _ _ _ _ H). reflexivity.
Qed.

Lemma query_calm s d sched clock rd :
  calm 1 sched = true ->
  query s (mkWorld d sched clock rd)
  = mkRun (fst (exec s d)) (mkWorld (snd (exec s d)) (tl sched) clock rd) [EQuery s].
Proof.
  intros H. unfold query, bind. cbn.
  rewrite (env_step_calm _ _ _ _ H). cbn.
  destruct (exec s d) as [[e|r] d']; reflexivity.
Qed.

(** ** Reading a property back from a converted row *)

Section ObjectFacts.
Context {V : Type}.

Lemma obj_find_set_same (o : Obj V) (k : string) (v : V) :
  obj_find k (obj_set o k v) = Some v.
Proof.
  induction o as [|[k' v'] o IH]; simpl.
  - now rewrite String.eqb_refl.
  - destruct (String.eqb_spec k' k) as [->|Hne]; simpl.
    + now rewrite String.eqb_refl.
    + destruct (String.eqb_spec k' k); [contradiction | exact IH].
Qed.

Lemma obj_find_set_other (o : Obj V) (k k' : string) (v : V) :
  k' <> k -> obj_find k (obj_set o k' v) = obj_find k o.
Proof.
  intros Hne. induction o as [|[k0 v0] o IH]; simpl.
  - destruct (String.eqb_spec k' k); [contradiction | reflexivity].
  - destruct (String.eqb_spec k0 k') as [->|H0]; simpl.
    + destruct (String.eqb_spec k' k); [contradiction | reflexivity].
    + now rewrite IH.
Qed.

End ObjectFacts.

Lemma camel_row_object (r : Row) :
  convertToCase snakeToCamel (row_object r)
  = [("id", JNum (r_id r)); ("title", r_title r);
     ("description", r_description r); ("status", r_status r);
     ("dueAt", r_due_at r); ("createdAt", r_created_at r);
     ("completedAt", r_completed_at r); ("editedAt", r_edited_at r)].
Proof. reflexivity. Qed.

Lemma prop_camel_row (c : Column) (r : Row) :
  prop (convertToCase snakeToCamel (row_object r)) (snakeToCamel (column_name c))
  = cell c r.
Proof. rewrite camel_row_object. destruct c; reflexivity. Qed.

Lemma prop_spread_row (a : Obj JsVal) (c : Column) (r : Row) :
  prop (obj_spread a (convertToCase snakeToCamel (row_object r)))
       (snakeToCamel (column_name c))
  = cell c r.
Proof.
  rewrite camel_row_object. unfold prop, obj_spread. cbn [fold_left fst snd].
  destruct c; cbn [column_name cell];
    match goal with
    | |- context [snakeToCamel ?s] =>
        let k := eval vm_compute in (snakeToCamel s) in
        change (snakeToCamel s) with k
    end;
    repeat (rewrite obj_find_set_other by discriminate);
    now rewrite obj_find_set_same.
Qed.

(** ** [update] and [markComplete] *)

Lemma update_calm this ups d sched clock rd result d' r rest :
  calm 2 sched = true ->
  exec (Update (convertToCase camelToSnake ups) (JDate (clock rd))
          (prop (Todo.props this) "id")) d = (inr result, d') ->
  rows result = r :: rest ->
  Todo.update this ups (mkWorld d sched clock rd)
  = mkRun (inr (Todo.new (obj_spread (Todo.props this)
                            (convertToCase snakeToCamel (row_object r)))))
      (mkWorld d' (tl (tl sched)) clock (S rd))
      [EReserve;
       EQuery (Update (convertToCase camelToSnake ups) (JDate (clock rd))
                 (prop (Todo.props this) "id"));
       ERelease].
Proof.
  intros H Hx Hr. apply calm_tl in H as [H1 H2].
  etransitivity.
  { unfold Todo.update.
    eapply bind_steps; [apply reserve_calm; assumption|]. cbv beta zeta.
    eapply bind_steps; [reflexivity|]. cbn [time_at reads db schedule].
    eapply bind_steps; [rewrite query_calm by assumption; rewrite Hx; reflexivity|].
    eapply bind_steps; [reflexivity|].
    eapply bind_steps; [rewrite Hr; reflexivity|]. reflexivity. }
  reflexivity.
Qed.

Lemma exec_complete (d : Database) (n : Z) (t1 t2 : Timestamp) :
  in_int4 n = true ->
  exec (Update (convertToCase camelToSnake (completeProps (JDate t1)))
          (JDate t2) (JNum n)) d
  = (inr (mkResult
            (map (completed_row (JDate t1) (JDate t2)) (filter (has_id n) (table d)))
            (length (map (completed_row (JDate t1) (JDate t2))
                       (filter (has_id n) (table d))))),
     mkDb (filter (fun r => negb (has_id n r)) (table d)
           ++ map (completed_row (JDate t1) (JDate t2)) (filter (has_id n) (table d)))
          (serial d)).
Proof.
  intros Hn. unfold exec.
  change (convertToCase camelToSnake (completeProps (JDate t1)))
    with [("status", JStr "complete"); ("completed_at", JDate t1)].
  cbn -[in_int4 has_id filter map]. rewrite Hn. reflexivity.
Qed.

Lemma filter_found (n : Z) (l : list Row) :
  existsb (has_id n) l = true ->
  exists r rest, filter (has_id n) l = r :: rest.
Proof.
  induction l as [|x l IH]; simpl; [discriminate|].
  destruct (has_id n x); [eauto | exact IH].
Qed.

Lemma completed_rows (n : Z) (a b : JsVal) (l : list Row) :
  Forall (fun r => has_id n r = true ->
                   r_status r = JStr "complete"
                   /\ r_completed_at r = a /\ r_edited_at r = b)
    (filter (fun r => negb (has_id n r)) l
     ++ map (completed_row a b) (filter (has_id n) l)).
Proof.
  apply Forall_app. split; apply Forall_forall; intros r Hr.
  - apply filter_In in Hr as [_ Hr]. apply negb_true_iff in Hr. congruence.
  - apply in_map_iff in Hr as (x & <- & _). intros _. repeat split.
Qed.

Lemma markComplete_is_update (this : Todo.t) (w : World) :
  Todo.markComplete this w = Todo.update this (completeProps (now w)) (ticked w).
Proof.
  unfold Todo.markComplete, bind, createUTCDate, now, ticked, completeProps.
  cbn [outcome final events app].
  now destruct (Todo.update this _ _) as [o f ev].
Qed.

Lemma update_queries (this : Todo.t) (ups : Obj JsVal) (w : World) (s : Stmt) :
  In (EQuery s) (events (Todo.update this ups w)) ->
  s = Update (convertToCase camelToSnake ups) (now w) (prop (Todo.props this) "id").
Proof.
  unfold Todo.update, now. destruct w as [d sched clock rd].
  destruct sched as [|[|e|l] [|[|e'|l'] sched]];
    cbv beta iota zeta delta [bind reserve query release createUTCDate emit env_step
      Todo.camelRow ret throw outcome final events schedule db time_at reads app];
    try (destruct (exec _ _) as [[e0|[[|r rest] k]] d'];
    cbv beta iota zeta delta [bind reserve query release createUTCDate emit env_step
      Todo.camelRow ret throw outcome final events schedule db time_at reads app rows hd_error]);
    intros H; repeat (destruct H as [H|H]; try discriminate H; try (now injection H));
    contradiction.
Qed.

(** C8.  [markComplete] is [update] applied to [status = "complete"] and
    [completedAt] = the current time, so the one statement it sends writes
    both, with [edited_at] next to them.  On an instance whose row is in the
    table, with the storage answering, it returns with [status] set to
    ["complete"] and [completedAt] set to that (non-null) timestamp, on the
    instance and in the table; the [update] it goes through stamps
    [editedAt] as well. *)
Theorem markComplete_completes :
  (forall (this : Todo.t) (w : World),
     Todo.markComplete this w
     = Todo.update this (completeProps (now w)) (ticked w))
  /\
  (forall (this : Todo.t) (w : World) (s : Stmt),
     In (EQuery s) (events (Todo.markComplete this w)) ->
     s = Update [("status", JStr "complete"); ("completed_at", now w)]
           (now (ticked w)) (prop (Todo.props this) "id"))
  /\
  (forall (this : Todo.t) (n : Z) (w : World),
     prop (Todo.props this) "id" = JNum n ->
     calm 2 (schedule w) = true ->
     existsb (has_id n) (table (db w)) = true ->
     exists todo completedAt editedAt,
       outcome (Todo.markComplete this w) = inr todo
       /\ now w = JDate completedAt
       /\ now (ticked w) = JDate editedAt
       /\ prop (Todo.props todo) "status" = JStr "complete"
       /\ prop (Todo.props todo) "completedAt" = JDate completedAt
       /\ prop (Todo.props todo) "editedAt" = JDate editedAt
       /\ existsb (has_id n) (table (db (final (Todo.markComplete this w)))) = true
       /\ Forall (fun r => has_id n r = true ->
                           r_status r = JStr "complete"
                           /\ r_completed_at r = JDate completedAt
                           /\ r_edited_at r = JDate editedAt)
            (table (db (final (Todo.markComplete this w))))).
Proof.
  split; [exact markComplete_is_update|]. split.
  - intros this w s H. rewrite markComplete_is_update in H.
    exact (update_queries this (completeProps (now w)) (ticked w) s H).
  - intros this n [d sched clock rd] Hid H Hex. cbn [schedule db] in *.
    pose proof (exists_in_int4 n (table d) Hex) as Hn.
    destruct (filter_found n (table d) Hex) as (r & rest & Hf).
    epose proof (update_calm this (completeProps (JDate (clock rd)))
                   d sched clock (S rd) _ _
                   (completed_row (JDate (clock rd)) (JDate (clock (S rd))) r)
                   (map (completed_row (JDate (clock rd)) (JDate (clock (S rd)))) rest)
                   H) as Hrun.
    rewrite Hid, (exec_complete d n _ _ Hn) in Hrun. specialize (Hrun eq_refl).
    cbn [rows] in Hrun. rewrite Hf in Hrun. specialize (Hrun eq_refl).
    exists (Todo.new (obj_spread (Todo.props this)
                        (convertToCase snakeToCamel
                           (row_object (completed_row (JDate (clock rd))
                                          (JDate (clock (S rd))) r))))),
      (clock rd), (clock (S rd)).
    rewrite markComplete_is_update. unfold now, ticked.
    cbn [db schedule time_at reads]. rewrite Hrun.
    cbn [outcome final db table Todo.props].
    split; [reflexivity|]. split; [reflexivity|]. split; [reflexivity|].
    split; [exact (prop_spread_row _ c_status _)|].
    split; [exact (prop_spread_row _ c_completed_at _)|].
    split; [exact (prop_spread_row _ c_edited_at _)|].
    split; [|rewrite <- Hf; apply completed_rows].
    rewrite existsb_app. apply orb_true_iff. right.
    cbn [map existsb]. apply orb_true_iff. left.
    assert (Hr : has_id n r = true).
    { assert (Hin : In r (filter (has_id n) (table d))) by (rewrite Hf; now left).
      now apply filter_In in Hin. }
    unfold has_id in *. exact Hr.
Qed.

(** ** [create] *)

Lemma create_calm props d sched clock rd result d' r rest :
  calm 2 sched = true ->
  nullish (prop props "createdAt") = false ->
  exec (Insert (convertToCase camelToSnake
                  (obj_set props "createdAt" (prop props "createdAt")))) d
  = (inr result, d') ->
  rows result = r :: rest ->
  Todo.create props (mkWorld d sched clock rd)
  = mkRun (inr (Todo.new (convertToCase snakeToCamel (row_object r))))
      (mkWorld d' (tl (tl sched)) clock rd)
      [EReserve;
       EQuery (Insert (convertToCase camelToSnake
                         (obj_set props "createdAt" (prop props "createdAt"))));
       ERelease].
Proof.
  intros H Hn Hx Hr. apply calm_tl in H as [H1 H2].
  etransitivity.
  { unfold Todo.create.
    eapply bind_steps; [apply reserve_calm; assumption|]. cbv beta zeta.
    rewrite Hn.
    eapply bind_steps; [reflexivity|]. cbv beta.
    eapply bind_steps; [rewrite query_calm by assumption; rewrite Hx; reflexivity|].
    eapply bind_steps; [reflexivity|].
    eapply bind_steps; [rewrite Hr; reflexivity|]. reflexivity. }
  reflexivity.
Qed.

Lemma create_calm_absent props d sched clock rd result d' r rest :
  calm 2 sched = true ->
  nullish (prop props "createdAt") = true ->
  exec (Insert (convertToCase camelToSnake
                  (obj_set props "createdAt" (JDate (clock rd))))) d
  = (inr result, d') ->
  rows result = r :: rest ->
  Todo.create props (mkWorld d sched clock rd)
  = mkRun (inr (Todo.new (convertToCase snakeToCamel (row_object r))))
      (mkWorld d' (tl (tl sched)) clock (S rd))
      [EReserve;
       EQuery (Insert (convertToCase camelToSnake
                         (obj_set props "createdAt" (JDate (clock rd)))));
       ERelease].
Proof.
  intros H Hn Hx Hr. apply calm_tl in H as [H1 H2].
  etransitivity.
  { unfold Todo.create.
    eapply bind_steps; [apply reserve_calm; assumption|]. cbv beta zeta.
    rewrite Hn.
    eapply bind_steps; [reflexivity|]. cbn [time_at reads db schedule].
    eapply bind_steps; [rewrite query_calm by assumption; rewrite Hx; reflexivity|].
    eapply bind_steps; [reflexivity|].
    eapply bind_steps; [rewrite Hr; reflexivity|]. reflexivity. }
  reflexivity.
Qed.

Lemma exec_insert (d : Database) (title description : string) (created : Timestamp) :
  serial_fresh d = true ->
  exec (Insert [("title", JStr title); ("description", JStr description);
                ("status", JStr "incomplete"); ("created_at", JDate created)]) d
  = (inr (mkResult [inserted_row (serial d) (JStr title) (JStr description)
                      JNull (JDate created)] 1),
     mkDb (table d ++ [inserted_row (serial d) (JStr title) (JStr description)
                         JNull (JDate created)])
          (serial d + 1)).
Proof.
  unfold serial_fresh. intros [Hs H]%andb_true_iff. apply negb_true_iff in H.
  unfold exec, bind_cells. cbn [existsb snd is_undefined orb].
  cbn -[existsb has_id Z.add in_int4]. now rewrite Hs, H.
Qed.

Lemma exec_insert_due (d : Database) (title description : string)
      (created due : Timestamp) :
  serial_fresh d = true ->
  exec (Insert [("title", JStr title); ("description", JStr description);
                ("status", JStr "incomplete"); ("created_at", JDate created);
                ("due_at", JDate due)]) d
  = (inr (mkResult [inserted_row (serial d) (JStr title) (JStr description)
                      (JDate due) (JDate created)] 1),
     mkDb (table d ++ [inserted_row (serial d) (JStr title) (JStr description)
                         (JDate due) (JDate created)])
          (serial d + 1)).
Proof.
  unfold serial_fresh. intros [Hs H]%andb_true_iff. apply negb_true_iff in H.
  unfold exec, bind_cells. cbn [existsb snd is_undefined orb].
  cbn -[existsb has_id Z.add in_int4]. now rewrite Hs, H.
Qed.

Section Creation.
Variable utcDateOf : JsVal -> JsVal.

Lemma createTodo_events (req : Request) (w : World) :
  let run := Todo.create (createProps utcDateOf req (now w)) (ticked w) in
  events (createTodo utcDateOf req w)
  = (events run ++
     match outcome run with
     | inl e => [ELog "Error while creating todo:" (Some e);
                 ESend (mkResponse InternalServerError "Error while creating todo" None)]
     | inr todo => [ESend (mkResponse Created "Todo created successfully!"
                             (Some (TodoPayload (Todo.props todo))))]
     end)%list.
Proof.
  cbv zeta. unfold createTodo, createProps. unfold bind at 1.
  cbn [createUTCDate outcome final events app]. fold (now w) (ticked w).
  set (m := Todo.create _). unfold tryCatch, bind. cbv beta zeta.
  destruct (outcome (m (ticked w))) as [e|todo] eqn:E; cbn;
    rewrite ?app_nil_r, <- ?app_assoc; reflexivity.
Qed.

End Creation.

Lemma bind_steps_events {A B} (m : M A) (k : A -> M B) w a w1 ev1 :
  m w = mkRun (inr a) w1 ev1 ->
  events (bind m k w) = (ev1 ++ events (k a w1))%list.
Proof. intros Hm. unfold bind. now rewrite Hm. Qed.

Lemma query_first {B} (s : Stmt) (k : QueryResult -> M B) (w : World) :
  exists rest, events (bind (query s) k w) = EQuery s :: rest.
Proof.
  destruct (events_bind_prefix (query s) k w) as [rest ->].
  unfold query.
  destruct (events_bind_prefix (emit (EQuery s))
              (fun _ => bind env_step (fun _ w =>
                 let (res, db') := exec s (db w) in
                 mkRun res (mkWorld db' (schedule w) (time_at w) (reads w)) [])) w)
    as [rest' ->].
  cbn. eexists. reflexivity.
Qed.

Lemma reserve_unfaulted (w : World) :
  faulted w = false -> exists w1, reserve w = mkRun (inr tt) w1 [EReserve].
Proof.
  unfold faulted. destruct w as [d sched clock rd]. cbn [schedule].
  destruct sched as [|[] later]; intros H; try discriminate H;
    eexists; reflexivity.
Qed.

Lemma create_issues_insert (props : Obj JsVal) (w : World) :
  faulted w = false ->
  nullish (prop props "createdAt") = false ->
  exists rest,
    events (Todo.create props w)
    = EReserve
      :: EQuery (Insert (convertToCase camelToSnake
                           (obj_set props "createdAt" (prop props "createdAt"))))
      :: rest.
Proof.
  intros Hf Hn. destruct (reserve_unfaulted w Hf) as [w1 Hres].
  unfold Todo.create. rewrite (bind_steps_events _ _ _ _ _ _ Hres).
  cbv beta zeta. rewrite Hn.
  rewrite (bind_steps_events (ret (prop props "createdAt")) _ w1 _ w1 [] eq_refl).
  match goal with
  | |- context [bind (query ?s) ?k w1] =>
      destruct (query_first s k w1) as [rest ->]
  end.
  eexists. reflexivity.
Qed.

Section CreationProperties.
Variable utcDateOf : JsVal -> JsVal.

(** C10.  [createTodo] checks nothing about the body: whatever the body
    holds, it goes to the entity (a connection is reserved first, and unless
    that fails an INSERT is sent whose [title] and [description] are the
    body's, [undefined] when missing); exactly one response is sent, a 201 or
    a 500, so never a 400. *)
Theorem createTodo_never_validates :
  forall (req : Request) (w : World),
    (exists r, sent (events (createTodo utcDateOf req w)) = [r]
               /\ (statusCode r = Created \/ statusCode r = InternalServerError)
               /\ statusCode r <> BadRequest)
    /\ hd_error (events (createTodo utcDateOf req w)) = Some EReserve
    /\ (faulted w = false ->
        exists values,
          nth_error (events (createTodo utcDateOf req w)) 1
          = Some (EQuery (Insert values))
          /\ prop values "title" = prop (body req) "title"
          /\ prop values "description" = prop (body req) "description").
Proof.
  intros req w. rewrite (createTodo_events utcDateOf req w). cbv zeta.
  set (run := Todo.create _ _). split; [|split].
  - rewrite sent_app.
    destruct (silent_create (createProps utcDateOf req (now w)) (ticked w)) as [Hs _].
    fold run in Hs. rewrite Hs.
    destruct (outcome run); eexists; (split; [reflexivity|]); cbn;
      (split; [auto | discriminate]).
  - subst run.
    destruct (create_reserves (createProps utcDateOf req (now w)) (ticked w))
      as [rest ->].
    reflexivity.
  - intros Hf. subst run.
    assert (Hn : nullish (prop (createProps utcDateOf req (now w)) "createdAt") = false).
    { unfold createProps. now destruct (truthy _). }
    destruct (create_issues_insert _ (ticked w) Hf Hn) as [rest ->].
    eexists. split; [reflexivity|].
    unfold createProps. destruct (truthy _); split; reflexivity.
Qed.

End CreationProperties.

Lemma valid_body_strings (b : Obj JsVal) :
  isValidTodoProps b = true ->
  exists title description,
    prop b "title" = JStr title /\ prop b "description" = JStr description.
Proof.
  unfold isValidTodoProps, prop.
  destruct (obj_find "title" b) as [[]|]; try discriminate;
    destruct (obj_find "description" b) as [[]|]; try discriminate.
  intros _. eauto.
Qed.

Lemma created_row_props (serial : Z) (title description due created : JsVal) :
  let todo := convertToCase snakeToCamel
                (row_object (inserted_row serial title description due created)) in
  prop todo "status" = JStr "incomplete"
  /\ prop todo "completedAt" = JNull
  /\ prop todo "createdAt" = created
  /\ prop todo "title" = title
  /\ prop todo "description" = description.
Proof. repeat split. Qed.

Section CreateIncomplete.
Variable utcDateOf : JsVal -> JsVal.

Lemma createTodo_valid_run (req : Request) d sched clock rd :
  isValidTodoProps (body req) = true ->
  dueAt_parses utcDateOf req = true ->
  calm 2 sched = true ->
  serial_fresh d = true ->
  exists due,
    Todo.create (createProps utcDateOf req (JDate (clock rd)))
      (mkWorld d sched clock (S rd))
    = mkRun (inr (Todo.new (convertToCase snakeToCamel
                              (row_object
                                 (inserted_row (serial d) (prop (body req) "title")
                                    (prop (body req) "description") due
                                    (JDate (clock rd)))))))
        (mkWorld (mkDb (table d ++ [inserted_row (serial d) (prop (body req) "title")
                                      (prop (body req) "description") due
                                      (JDate (clock rd))])
                       (serial d + 1))
           (tl (tl sched)) clock (S rd))
        [EReserve;
         EQuery (Insert (convertToCase camelToSnake
                           (createProps utcDateOf req (JDate (clock rd)))));
         ERelease].
Proof.
  intros Hv Hd Hc Hf.
  destruct (valid_body_strings (body req) Hv) as (title & description & Ht & Hde).
  unfold dueAt_parses in Hd. unfold createProps. rewrite Ht, Hde.
  destruct (truthy (prop (body req) "dueAt")).
  - destruct (utcDateOf (prop (body req) "dueAt")) as [| | | | |due|]; try discriminate Hd.
    exists (JDate due).
    exact (create_calm
             [("title", JStr title); ("description", JStr description);
              ("status", JStr "incomplete"); ("createdAt", JDate (clock rd));
              ("dueAt", JDate due)]
             d sched clock (S rd) _ _ _ [] Hc eq_refl
             (exec_insert_due d title description (clock rd) due Hf) eq_refl).
  - exists JNull.
    exact (create_calm
             [("title", JStr title); ("description", JStr description);
              ("status", JStr "incomplete"); ("createdAt", JDate (clock rd))]
             d sched clock (S rd) _ _ _ [] Hc eq_refl
             (exec_insert d title description (clock rd) Hf) eq_refl).
Qed.

(** C7.  For a valid creation input (title and description are strings,
    the due date if any parses) and a storage that answers, [createTodo]
    responds 201 with the entity [Todo.create] returned: its [status] is
    ["incomplete"], its [completedAt] is unset (null), and its [createdAt]
    is the current time.  [Todo.create] itself keeps a [createdAt] it is
    given and fills in the current time when it is absent, undefined or
    null. *)
Theorem create_returns_incomplete :
  (forall (req : Request) (w : World),
     isValidTodoProps (body req) = true ->
     dueAt_parses utcDateOf req = true ->
     calm 2 (schedule w) = true ->
     serial_fresh (db w) = true ->
     exists todo,
       sent (events (createTodo utcDateOf req w))
       = [mkResponse Created "Todo created successfully!" (Some (TodoPayload todo))]
       /\ outcome (Todo.create (createProps utcDateOf req (now w)) (ticked w))
          = inr (Todo.new todo)
       /\ prop todo "status" = JStr "incomplete"
       /\ prop todo "completedAt" = JNull
       /\ prop todo "createdAt" = now w
       /\ prop todo "title" = prop (body req) "title"
       /\ prop todo "description" = prop (body req) "description")
  /\
  (forall (title description : string) (createdAt : Obj JsVal) (w : World),
     calm 2 (schedule w) = true ->
     serial_fresh (db w) = true ->
     (createdAt = [] \/ createdAt = [("createdAt", JUndefined)]
      \/ createdAt = [("createdAt", JNull)]
      \/ exists t, createdAt = [("createdAt", JDate t)]) ->
     exists todo,
       outcome (Todo.create ([("title", JStr title); ("description", JStr description);
                              ("status", JStr "incomplete")] ++ createdAt)%list w)
       = inr todo
       /\ prop (Todo.props todo) "status" = JStr "incomplete"
       /\ prop (Todo.props todo) "completedAt" = JNull
       /\ prop (Todo.props todo) "createdAt"
          = (if nullish (prop createdAt "createdAt")
             then now w else prop createdAt "createdAt")).
Proof.
  split.
  - intros req [d sched clock rd] Hv Hd Hc Hf. cbn [schedule db] in *.
    destruct (createTodo_valid_run req d sched clock rd Hv Hd Hc Hf) as [due Hrun].
    rewrite (createTodo_events utcDateOf req). cbv zeta.
    unfold now, ticked. cbn [db schedule time_at reads].
    rewrite Hrun. cbn [outcome events app sent Todo.props].
    eexists. split; [reflexivity|]. split; [reflexivity|].
    apply created_row_props.
  - intros title description createdAt [d sched clock rd] Hc Hf Hcase.
    cbn [schedule db] in *. unfold now. cbn [time_at reads].
    set (base := [("title", JStr title); ("description", JStr description);
                  ("status", JStr "incomplete")]).
    destruct Hcase as [-> | [-> | [-> | [t ->]]]].
    + rewrite (create_calm_absent (base ++ [])%list d sched clock rd _ _ _ [] Hc eq_refl
                 (exec_insert d title description (clock rd) Hf) eq_refl).
      eexists. split; [reflexivity|]. repeat split.
    + rewrite (create_calm_absent (base ++ [("createdAt", JUndefined)])%list d sched clock rd _ _ _ [] Hc eq_refl
                 (exec_insert d title description (clock rd) Hf) eq_refl).
      eexists. split; [reflexivity|]. repeat split.
    + rewrite (create_calm_absent (base ++ [("createdAt", JNull)])%list d sched clock rd _ _ _ [] Hc eq_refl
                 (exec_insert d title description (clock rd) Hf) eq_refl).
      eexists. split; [reflexivity|]. repeat split.
    + rewrite (create_calm (base ++ [("createdAt", JDate t)])%list d sched clock rd
                 _ _ _ [] Hc eq_refl
                 (exec_insert d title description t Hf) eq_refl).
      eexists. split; [reflexivity|]. repeat split.
Qed.

End CreateIncomplete.

(** ** [readAll] and ORDER BY *)

Lemma cell_compare_antisym (a b : JsVal) :
  cell_compare b a = CompOpp (cell_compare a b).
Proof.
  destruct a, b; try reflexivity; cbn [cell_compare].
  - destruct b, b0; reflexivity.
  - apply Z.compare_antisym.
  - apply String.compare_antisym.
  - apply Z.compare_antisym.
Qed.

Lemma cell_leb_total (a b : JsVal) : cell_leb a b = false -> cell_leb b a = true.
Proof.
  unfold cell_leb. rewrite (cell_compare_antisym a b).
  destruct (cell_compare a b); cbn; congruence.
Qed.

Lemma row_leb_total (c : Column) (d : Direction) (r1 r2 : Row) :
  row_leb c d r1 r2 = false -> row_leb c d r2 r1 = true.
Proof. destruct d; apply cell_leb_total. Qed.

Section InsertionSort.
Variable le : Row -> Row -> bool.
Hypothesis le_total : forall a b, le a b = false -> le b a = true.


Lemma insert_sorted_hd (a r : Row) (l : list Row) :
  (in_order le) a r -> HdRel (in_order le) a l -> HdRel (in_order le) a (insert_sorted le r l).
Proof.
  unfold in_order. intros Har Hal. destruct l as [|b l]; simpl.
  - now constructor.
  - destruct (le r b); constructor; [assumption|now inversion Hal].
Qed.

Lemma insert_sorted_Sorted (r : Row) (l : list Row) :
  Sorted (in_order le) l -> Sorted (in_order le) (insert_sorted le r l).
Proof.
  induction l as [|a l IH]; simpl; intros Hs.
  - repeat constructor.
  - destruct (le r a) eqn:E.
    + constructor; [assumption | now constructor].
    + inversion Hs; subst. constructor; [now apply IH|].
      apply insert_sorted_hd; [now apply le_total | assumption].
Qed.

Lemma sort_rows_Sorted (l : list Row) : Sorted (in_order le) (sort_rows le l).
Proof.
  induction l as [|a l IH]; simpl; [constructor|].
  now apply insert_sorted_Sorted.
Qed.

Lemma insert_sorted_perm (r : Row) (l : list Row) :
  Permutation (r :: l) (insert_sorted le r l).
Proof.
  induction l as [|a l IH]; simpl; [reflexivity|].
  destruct (le r a); [reflexivity|].
  rewrite perm_swap. now constructor.
Qed.

Lemma sort_rows_perm (l : list Row) : Permutation l (sort_rows le l).
Proof.
  induction l as [|a l IH]; simpl; [constructor|].
  rewrite <- insert_sorted_perm. now constructor.
Qed.

End InsertionSort.

Lemma todo_cell_of_row (c : Column) (r : Row) :
  todo_cell c (todo_of_row r) = cell c r.
Proof. apply prop_camel_row. Qed.

Lemma Sorted_todos (R : Row -> Row -> Prop) (Q : Todo.t -> Todo.t -> Prop)
      (l : list Row) :
  (forall a b, R a b -> Q (todo_of_row a) (todo_of_row b)) ->
  Sorted R l -> Sorted Q (map todo_of_row l).
Proof.
  intros HRQ. induction 1 as [|a l Hs IH Hhd]; simpl; constructor; [assumption|].
  destruct Hhd; simpl; constructor. now apply HRQ.
Qed.

Lemma sorted_todos_in_order (c : Column) (d : Direction) (l : list Row) :
  match d with
  | ASC => ascending c (map todo_of_row (sort_rows (row_leb c d) l))
  | DESC => descending c (map todo_of_row (sort_rows (row_leb c d) l))
  end.
Proof.
  destruct d; unfold ascending, descending.
  - apply Sorted_todos with (R := in_order (row_leb c ASC)).
    + intros a b. now rewrite !todo_cell_of_row.
    + apply sort_rows_Sorted. apply row_leb_total.
  - apply Sorted_todos with (R := in_order (row_leb c DESC)).
    + intros a b. now rewrite !todo_cell_of_row.
    + apply sort_rows_Sorted. apply row_leb_total.
Qed.

Lemma exec_select_ordered (d : Database) (status : JsVal) (c : Column) (dir : Direction) :
  match status with JUndefined | JNull | JStr _ => True | _ => False end ->
  exists selected,
    exec (SelectAll (if truthy status then Some status else None) (Some c) (Some dir)) d
    = (inr (mkResult (sort_rows (row_leb c dir) selected)
              (length (sort_rows (row_leb c dir) selected))), d)
    /\ incl selected (table d)
    /\ (truthy status = false -> selected = table d).
Proof.
  intros Hs. destruct status as [| | | |s| |]; try contradiction; cbn [truthy].
  - exists (table d). repeat split. apply incl_refl.
  - exists (table d). repeat split. apply incl_refl.
  - destruct (negb (s =? "")) eqn:E.
    + eexists. split; [reflexivity|]. split; [|discriminate].
      intros r Hr. now apply filter_In in Hr.
    + exists (table d). repeat split. apply incl_refl.
Qed.

Lemma readAll_calm filters sortBy orderBy d sched clock rd result :
  calm 2 sched = true ->
  exec (SelectAll
          (if truthy (match filters with
                      | Some f => prop f "status"
                      | None => JUndefined
                      end)
           then Some (match filters with
                      | Some f => prop f "status"
                      | None => JUndefined
                      end)
           else None)
          (Todo.fragment sortBy Todo.getSortBy)
          (Todo.fragment orderBy Todo.getOrderBy)) d = (inr result, d) ->
  outcome (Todo.readAll filters sortBy orderBy (mkWorld d sched clock rd))
  = inr (map todo_of_row (rows result)).
Proof.
  intros H Hx. apply calm_tl in H as [H1 H2].
  unfold Todo.readAll.
  erewrite bind_steps; [reflexivity | apply reserve_calm; assumption |].
  cbv beta zeta.
  eapply bind_steps; [rewrite query_calm by assumption; rewrite Hx; reflexivity|].
  eapply bind_steps; reflexivity.
Qed.

Lemma fragment_given {A} (s : string) (f : string -> A) :
  s <> "" -> Todo.fragment (Some s) f = Some (f s).
Proof.
  intros H. unfold Todo.fragment. now destruct (String.eqb_spec s "").
Qed.

(** C4 (as the code has it).  With a [sortBy] and an [orderBy] given,
    [Todo.readAll] returns the selected rows in ascending order of the
    resolved column when [orderBy] is exactly ["asc"], and in descending
    order for every other value, ["desc"] among them. *)
Theorem readAll_order :
  forall (filters : option (Obj JsVal)) (sortBy orderBy : string) (w : World),
    sortBy <> "" ->
    orderBy <> "" ->
    filters_typed filters = true ->
    calm 2 (schedule w) = true ->
    exists selected todos,
      outcome (Todo.readAll filters (Some sortBy) (Some orderBy) w) = inr todos
      /\ Permutation (map todo_of_row selected) todos
      /\ incl selected (table (db w))
      /\ (unfiltered filters = true -> selected = table (db w))
      /\ (orderBy = "asc" -> ascending (Todo.getSortBy sortBy) todos)
      /\ (orderBy <> "asc" -> descending (Todo.getSortBy sortBy) todos).
Proof.
  intros filters sortBy orderBy [d sched clock rd] Hs Ho Hf Hc.
  cbn [schedule db] in *.
  set (status := match filters with
                 | Some f => prop f "status"
                 | None => JUndefined
                 end).
  assert (Hst : match status with JUndefined | JNull | JStr _ => True | _ => False end).
  { subst status. unfold filters_typed in Hf. destruct filters as [f|]; [|exact I].
    destruct (prop f "status"); try discriminate Hf; exact I. }
  destruct (exec_select_ordered d status (Todo.getSortBy sortBy)
              (Todo.getOrderBy orderBy) Hst) as (selected & Hx & Hincl & Hall).
  exists selected, (map todo_of_row (sort_rows (row_leb (Todo.getSortBy sortBy)
                                               (Todo.getOrderBy orderBy)) selected)).
  split.
  { set (sorted := sort_rows _ selected) in *.
    apply (readAll_calm filters (Some sortBy) (Some orderBy) d sched clock rd
             (mkResult sorted (length sorted)) Hc).
    rewrite (fragment_given _ _ Hs), (fragment_given _ _ Ho). exact Hx. }
  split; [apply Permutation_map, sort_rows_perm|].
  split; [exact Hincl|].
  split.
  { intros Hu. apply Hall. subst status. unfold unfiltered in Hu.
    destruct filters; [now apply negb_true_iff in Hu | reflexivity]. }
  pose proof (sorted_todos_in_order (Todo.getSortBy sortBy)
                (Todo.getOrderBy orderBy) selected) as Hsorted.
  unfold Todo.getOrderBy in *.
  destruct (String.eqb_spec orderBy "asc") as [->|Hne]; split; intros H;
    try assumption; congruence.
Qed.

(** C4, as stated, fails: [orderBy = "ASC"] is not ["desc"], yet the rows
    come back in descending order of [id]. *)
Lemma readAll_uppercase_ASC_descends :
  "ASC" <> "desc"
  /\ outcome (Todo.readAll None (Some "id") (Some "ASC") (kitchen []))
     = inr [todo_of_row bread; todo_of_row milk]
  /\ ~ ascending (Todo.getSortBy "id") [todo_of_row bread; todo_of_row milk].
Proof.
  split; [discriminate|]. split; [reflexivity|].
  unfold ascending. intros H. inversion H as [|a l _ Hhd]; subst.
  inversion Hhd as [|b l' Hle]; subst. discriminate Hle.
Qed.

(** C8, as stated, fails: another client has deleted the row of the
    instance, so the UPDATE of [markComplete] changes no row and returns
    none; [markComplete] throws on the missing row, and neither the
    instance nor any row has been set to complete. *)
Lemma markComplete_row_gone :
  outcome (Todo.markComplete (todo_of_row milk) (kitchen [Commit [bread]]))
  = inl TypeError
  /\ table (db (final (Todo.markComplete (todo_of_row milk) (kitchen [Commit [bread]]))))
     = [bread]
  /\ prop (Todo.props (todo_of_row milk)) "status" = JStr "incomplete"
  /\ prop (Todo.props (todo_of_row milk)) "completedAt" = JNull.
Proof. repeat split. Qed.

(* ===================================================================== *)
(** * The properties at work on the sample data *)
(* ===================================================================== *)

Lemma convertToCase_round_trip_witness :
  convertToCase snakeToCamel (convertToCase camelToSnake camel_sample) = camel_sample
  /\ convertToCase camelToSnake (convertToCase snakeToCamel snake_sample) = snake_sample.
Proof.
  split.
  - apply (convertToCase_round_trip nat camel_sample).
    + repeat constructor; simpl; intuition discriminate.
    + intros k [<- | [<- | [<- | []]]].
      * exists ["created"; "at"]. split; reflexivity.
      * exists ["due"; "at"]. split; reflexivity.
      * exists ["title"]. split; reflexivity.
  - apply (convertToCase_round_trip nat snake_sample).
    + repeat constructor; simpl; intuition discriminate.
    + intros k [<- | [<- | [<- | []]]].
      * exists ["created"; "at"]. split; reflexivity.
      * exists ["due"; "at"]. split; reflexivity.
      * exists ["title"]. split; reflexivity.
Defined.

Lemma getTodoList_validation_order_witness :
  getTodoList (list_request [("status", "bogus"); ("sortBy", "nonsense")]) (kitchen [])
  = mkRun (inr tt) (kitchen []) [bad_request "Invalid filter parameter."]
  /\ getTodoList (list_request [("sortBy", "nonsense"); ("orderBy", "up")]) (kitchen [])
     = mkRun (inr tt) (kitchen []) [bad_request "Invalid sortBy parameter."]
  /\ getTodoList (list_request [("status", "complete"); ("orderBy", "up")]) (kitchen [])
     = mkRun (inr tt) (kitchen []) [bad_request "Invalid orderBy parameter."]
  /\ hd_error (events (getTodoList (list_request [("status", "complete")]) (kitchen [])))
     = Some EReserve.
Proof.
  split; [|split; [|split]].
  - apply (getTodoList_validation_order
             (list_request [("status", "bogus"); ("sortBy", "nonsense")]) (kitchen [])).
    reflexivity.
  - apply (getTodoList_validation_order
             (list_request [("sortBy", "nonsense"); ("orderBy", "up")]) (kitchen []));
      reflexivity.
  - apply (getTodoList_validation_order
             (list_request [("status", "complete"); ("orderBy", "up")]) (kitchen []));
      reflexivity.
  - apply (getTodoList_validation_order
             (list_request [("status", "complete")]) (kitchen []));
      reflexivity.
Defined.

Lemma read_throws_no_response_witness :
  outcome (Todo.read 1%Z (kitchen [Fault ConnectionError])) = inl ConnectionError
  /\ sent (events (updateTodo epoch_date (id_request 1) (kitchen [Fault ConnectionError]))) = []
  /\ sent (events (deleteTodo (id_request 1) (kitchen [Fault ConnectionError]))) = []
  /\ sent (events (completeTodo (id_request 1) (kitchen [Fault ConnectionError]))) = [].
Proof.
  split; [reflexivity|].
  destruct (read_throws_no_response epoch_date (id_request 1) 1%Z
              (kitchen [Fault ConnectionError]) ConnectionError eq_refl eq_refl)
    as ((Hu & _) & (Hd & _) & (Hc & _)).
  repeat split; assumption.
Defined.

Lemma storage_error_sends_twice_witness :
  status_codes (events (getTodoList (list_request [("sortBy", "")]) (kitchen [])))
  = [InternalServerError; OK]
  /\ status_codes (events (getTodo (id_request 1) (kitchen [Quiet; Fault ConnectionError])))
     = [InternalServerError; NotFound].
Proof.
  unfold status_codes. split.
  - rewrite (proj1 storage_error_sends_twice (list_request [("sortBy", "")])
               (kitchen []) SyntaxError eq_refl eq_refl eq_refl eq_refl).
    reflexivity.
  - rewrite (proj2 storage_error_sends_twice (id_request 1) 1%Z
               (kitchen [Quiet; Fault ConnectionError]) ConnectionError
               eq_refl eq_refl).
    reflexivity.
Defined.

Lemma readAll_order_witness :
  exists selected todos,
    outcome (Todo.readAll None (Some "title") (Some "desc") (kitchen [])) = inr todos
    /\ Permutation (map todo_of_row selected) todos
    /\ incl selected (table (db (kitchen [])))
    /\ (unfiltered None = true -> selected = table (db (kitchen [])))
    /\ ("desc" = "asc" -> ascending (Todo.getSortBy "title") todos)
    /\ ("desc" <> "asc" -> descending (Todo.getSortBy "title") todos).
Proof.
  apply (readAll_order None "title" "desc" (kitchen []));
    [discriminate | discriminate | reflexivity | reflexivity].
Defined.

Lemma delete_true_iff_one_row_witness :
  (outcome (Todo.delete (todo_of_row milk) (kitchen [])) = inr true
   /\ table (db (final (Todo.delete (todo_of_row milk) (kitchen [])))) = [bread])
  /\ (outcome (Todo.delete (todo_of_row milk) (mkWorld (mkDb [bread] 3) [] wall_clock 0))
      = inr false
      /\ table (db (final (Todo.delete (todo_of_row milk)
                             (mkWorld (mkDb [bread] 3) [] wall_clock 0))))
         = [bread])
  /\ sent (events (deleteTodo (id_request 1)
                     (kitchen [Quiet; Quiet; Quiet; Commit [bread]])))
     = [mkResponse InternalServerError "Error while deleting todo." None]
  /\ sent (events (deleteTodo (id_request 1) (kitchen [])))
     = [mkResponse OK "Todo deleted successfully!"
          (Some (TodoPayload (Todo.props (todo_of_row milk))))].
Proof.
  split; [|split; [|split]].
  - destruct (proj1 delete_true_iff_one_row (todo_of_row milk) 1%Z (kitchen [])
                eq_refl eq_refl eq_refl) as (_ & Ht & _ & Ho & _).
    split; [exact Ho | exact Ht].
  - destruct (proj1 delete_true_iff_one_row (todo_of_row milk) 1%Z
                (mkWorld (mkDb [bread] 3) [] wall_clock 0)
                eq_refl eq_refl eq_refl) as (_ & Ht & _ & Ho & _).
    split; [exact Ho | exact Ht].
  - apply (proj2 delete_true_iff_one_row (id_request 1) 1%Z
             (kitchen [Quiet; Quiet; Quiet; Commit [bread]])
             (todo_of_row milk) false); reflexivity.
  - apply (proj2 delete_true_iff_one_row (id_request 1) 1%Z (kitchen [])
             (todo_of_row milk) true); reflexivity.
Defined.

Lemma create_returns_incomplete_witness :
  exists todo,
    sent (events (createTodo epoch_date
                    (post_request [("title", JStr "Buy eggs"); ("description", JStr "a dozen")])
                    (kitchen [])))
    = [mkResponse Created "Todo created successfully!" (Some (TodoPayload todo))]
    /\ prop todo "status" = JStr "incomplete"
    /\ prop todo "completedAt" = JNull
    /\ prop todo "createdAt" = JDate 5000%Z.
Proof.
  destruct (proj1 (create_returns_incomplete epoch_date)
              (post_request [("title", JStr "Buy eggs"); ("description", JStr "a dozen")])
              (kitchen []) eq_refl eq_refl eq_refl eq_refl)
    as (todo & Hsent & _ & Hstatus & Hcompleted & Hcreated & _).
  exists todo. repeat split; assumption.
Defined.

Lemma markComplete_completes_witness :
  exists todo completedAt editedAt,
    outcome (Todo.markComplete (todo_of_row milk) (kitchen [])) = inr todo
    /\ now (kitchen []) = JDate completedAt
    /\ now (ticked (kitchen [])) = JDate editedAt
    /\ prop (Todo.props todo) "status" = JStr "complete"
    /\ prop (Todo.props todo) "completedAt" = JDate completedAt
    /\ prop (Todo.props todo) "editedAt" = JDate editedAt
    /\ existsb (has_id 1%Z)
         (table (db (final (Todo.markComplete (todo_of_row milk) (kitchen []))))) = true
    /\ Forall (fun r => has_id 1%Z r = true ->
                        r_status r = JStr "complete"
                        /\ r_completed_at r = JDate completedAt
                        /\ r_edited_at r = JDate editedAt)
         (table (db (final (Todo.markComplete (todo_of_row milk) (kitchen []))))).
Proof.
  apply (proj2 (proj2 markComplete_completes) (todo_of_row milk) 1%Z (kitchen []));
    reflexivity.
Defined.

Lemma createTodo_never_validates_witness :
  faulted (kitchen []) = false
  /\ exists values,
       nth_error (events (createTodo epoch_date
                            (post_request [("title", JStr "Buy eggs")]) (kitchen []))) 1
       = Some (EQuery (Insert values))
       /\ prop values "title" = JStr "Buy eggs"
       /\ prop values "description" = JUndefined.
Proof.
  split; [reflexivity|].
  apply (createTodo_never_validates epoch_date
           (post_request [("title", JStr "Buy eggs")]) (kitchen [])).
  reflexivity.
Defined.

(* ===================================================================== *)
(** * Further properties: what every run of a handler looks like *)
(* ===================================================================== *)

Lemma outcome_bind {A B} (m : M A) (k : A -> M B) (w : World) :
  outcome (bind m k w)
  = match outcome (m w) with
    | inl e => inl e
    | inr a => outcome (k a (final (m w)))
    end.
Proof. unfold bind. now destruct (outcome (m w)). Qed.

Lemma events_bind {A B} (m : M A) (k : A -> M B) (w : World) :
  events (bind m k w)
  = (events (m w) ++ match outcome (m w) with
                     | inl e => []
                     | inr a => events (k a (final (m w)))
                     end)%list.
Proof. unfold bind. destruct (outcome (m w)); cbn; now rewrite ?app_nil_r. Qed.

Lemma final_bind {A B} (m : M A) (k : A -> M B) (w : World) :
  final (bind m k w)
  = match outcome (m w) with
    | inl e => final (m w)
    | inr a => final (k a (final (m w)))
    end.
Proof. unfold bind. now destruct (outcome (m w)). Qed.

Lemma outcome_tryCatch {A} (m : M A) (h : Error -> M A) (w : World) :
  outcome (tryCatch m h w)
  = match outcome (m w) with
    | inl e => outcome (h e (final (m w)))
    | inr a => inr a
    end.
Proof. unfold tryCatch. now destruct (outcome (m w)) eqn:E. Qed.

Lemma events_tryCatch {A} (m : M A) (h : Error -> M A) (w : World) :
  events (tryCatch m h w)
  = (events (m w) ++ match outcome (m w) with
                     | inl e => events (h e (final (m w)))
                     | inr a => []
                     end)%list.
Proof. unfold tryCatch. destruct (outcome (m w)); cbn; now rewrite ?app_nil_r. Qed.

Lemma final_tryCatch {A} (m : M A) (h : Error -> M A) (w : World) :
  final (tryCatch m h w)
  = match outcome (m w) with
    | inl e => final (h e (final (m w)))
    | inr a => final (m w)
    end.
Proof. unfold tryCatch. now destruct (outcome (m w)). Qed.

Lemma events_reserve (w : World) : events (reserve w) = [EReserve].
Proof.
  unfold reserve. rewrite events_bind. cbn.
  unfold env_step. now destruct (schedule w) as [|[] ?].
Qed.

Lemma events_query (s : Stmt) (w : World) : events (query s w) = [EQuery s].
Proof.
  unfold query. rewrite events_bind. cbn [emit outcome events final app].
  rewrite events_bind. f_equal.
  unfold env_step at 1 2. destruct (schedule w) as [|[] ?]; cbn;
    try reflexivity; now destruct (exec s _).
Qed.

(** ** The three guarded handlers *)

Section Guarded.
Variable utcDateOf : JsVal -> JsVal.

Lemma updateTodo_guarded (req : Request) (n : Z) :
  id req = Some n ->
  updateTodo utcDateOf req
  = guarded n "Error while updating todo:"
      (fun todo =>
         todo <- Todo.update todo (updateProps utcDateOf req) ;;
         send OK "Todo updated successfully!" (Some (TodoPayload (Todo.props todo)))).
Proof. intros H. unfold updateTodo. now rewrite H. Qed.

Lemma deleteTodo_guarded (req : Request) (n : Z) :
  id req = Some n ->
  deleteTodo req
  = guarded n "Error while deleting todo:"
      (fun todo =>
         deleted <- Todo.delete todo ;;
         if deleted
         then send OK "Todo deleted successfully!" (Some (TodoPayload (Todo.props todo)))
         else send InternalServerError "Error while deleting todo." None).
Proof. intros H. unfold deleteTodo. now rewrite H. Qed.

Lemma completeTodo_guarded (req : Request) (n : Z) :
  id req = Some n ->
  completeTodo req
  = guarded n "Error while marking todo as complete:"
      (fun todo =>
         todo <- Todo.markComplete todo ;;
         send OK "Todo marked as complete!" (Some (TodoPayload (Todo.props todo)))).
Proof. intros H. unfold completeTodo. now rewrite H. Qed.

End Guarded.

Lemma guarded_outcome (n : Z) (label : string) (found : Todo.t -> M unit) (w : World) :
  outcome (guarded n label found w) = inr tt.
Proof.
  unfold guarded. rewrite outcome_tryCatch.
  destruct (outcome _) as [e|[]]; reflexivity.
Qed.

Lemma guarded_events (n : Z) (label : string) (found : Todo.t -> M unit) (w : World) :
  events (guarded n label found w)
  = (events (Todo.read n w) ++
     match outcome (Todo.read n w) with
     | inl e => [ELog label (Some e)]
     | inr None => [not_found]
     | inr (Some todo) =>
         events (found todo (final (Todo.read n w))) ++
         match outcome (found todo (final (Todo.read n w))) with
         | inl e => [ELog label (Some e)]
         | inr _ => []
         end
     end)%list.
Proof.
  unfold guarded. rewrite events_tryCatch, outcome_bind, events_bind.
  destruct (outcome (Todo.read n w)) as [e|[todo|]]; cbn [events outcome console_error emit send];
    rewrite <- ?app_assoc; reflexivity.
Qed.

Lemma guarded_final (n : Z) (label : string) (found : Todo.t -> M unit) (w : World) :
  final (guarded n label found w)
  = match outcome (Todo.read n w) with
    | inr (Some todo) => final (found todo (final (Todo.read n w)))
    | _ => final (Todo.read n w)
    end.
Proof.
  unfold guarded. rewrite final_tryCatch, outcome_bind, final_bind.
  destruct (outcome (Todo.read n w)) as [e|[todo|]]; cbn; try reflexivity.
  now destruct (outcome (found todo _)).
Qed.

(** X1.  A path id that does not parse (NaN) is answered 400 "Invalid ID"
    by [getTodo], [updateTodo], [deleteTodo] and [completeTodo] alike,
    whatever the body and the query string hold; the handler ends there,
    with the world as it was and no storage call. *)
Theorem invalid_id_is_bad_request :
  forall (utcDateOf : JsVal -> JsVal) (b : Obj JsVal) (q : list (string * string))
         (w : World),
    getTodo (mkRequest b q None) w = mkRun (inr tt) w [bad_request "Invalid ID"]
    /\ updateTodo utcDateOf (mkRequest b q None) w
       = mkRun (inr tt) w [bad_request "Invalid ID"]
    /\ deleteTodo (mkRequest b q None) w = mkRun (inr tt) w [bad_request "Invalid ID"]
    /\ completeTodo (mkRequest b q None) w = mkRun (inr tt) w [bad_request "Invalid ID"].
Proof. intros. repeat split. Qed.

(** X2.  Once the id has parsed, everything [deleteTodo] and
    [completeTodo] do lies inside their [try], and the [catch] only prints:
    in every world each of the two returns normally, also when the storage
    throws at any step of the read or of the statement after it. *)
Theorem delete_and_complete_never_throw :
  forall (req : Request) (n : Z) (w : World),
    id req = Some n ->
    outcome (deleteTodo req w) = inr tt
    /\ outcome (completeTodo req w) = inr tt.
Proof.
  intros req n w E. split.
  - rewrite (deleteTodo_guarded req n E). apply guarded_outcome.
  - rewrite (completeTodo_guarded req n E). apply guarded_outcome.
Qed.

Lemma sent_guarded (n : Z) (label : string) (found : Todo.t -> M unit) (w : World) :
  sent (events (guarded n label found w))
  = match outcome (Todo.read n w) with
    | inl e => []
    | inr None => [mkResponse NotFound "Not found" None]
    | inr (Some todo) => sent (events (found todo (final (Todo.read n w))))
    end.
Proof.
  rewrite guarded_events, sent_app.
  destruct (silent_read n w) as [-> _].
  destruct (outcome (Todo.read n w)) as [e|[todo|]]; try reflexivity.
  cbn [app]. rewrite sent_app.
  destruct (outcome (found todo _)); cbn; now rewrite app_nil_r.
Qed.

Lemma sent_then_send {A} (m : M A) (k : A -> Response) (w : World) :
  silent m ->
  sent (events (bind m (fun a => emit (ESend (k a))) w))
  = match outcome (m w) with
    | inl e => []
    | inr a => [k a]
    end.
Proof.
  intros Hs. rewrite events_bind, sent_app. destruct (Hs w) as [-> _].
  now destruct (outcome (m w)).
Qed.

(** X3.  [updateTodo], [deleteTodo] and [completeTodo] send at most one
    response in every run, whatever the request and whatever the storage
    does. *)
Theorem guarded_handlers_send_at_most_once :
  forall (utcDateOf : JsVal -> JsVal) (req : Request) (w : World),
    length (sent (events (updateTodo utcDateOf req w))) <= 1
    /\ length (sent (events (deleteTodo req w))) <= 1
    /\ length (sent (events (completeTodo req w))) <= 1.
Proof.
  intros u req w.
  destruct (id req) as [n|] eqn:E.
  2: { unfold updateTodo, deleteTodo, completeTodo. rewrite E. cbn. auto. }
  rewrite (updateTodo_guarded u req n E), (deleteTodo_guarded req n E),
    (completeTodo_guarded req n E), !sent_guarded.
  destruct (outcome (Todo.read n w)) as [e|[todo|]]; cbn; auto.
  repeat split.
  - unfold send.
    rewrite (sent_then_send (Todo.update todo (updateProps u req))
               (fun t => mkResponse OK "Todo updated successfully!"
                           (Some (TodoPayload (Todo.props t))))
               _ (silent_update _ _)).
    destruct (outcome _); cbn; auto.
  - rewrite events_bind, sent_app.
    destruct (silent_delete todo (final (Todo.read n w))) as [-> _].
    destruct (outcome _) as [e|[]]; cbn; auto.
  - unfold send.
    rewrite (sent_then_send (Todo.markComplete todo)
               (fun t => mkResponse OK "Todo marked as complete!"
                           (Some (TodoPayload (Todo.props t))))
               _ (silent_markComplete _)).
    destruct (outcome _); cbn; auto.
Qed.

Lemma logged_guarded_found_throws (n : Z) (label : string) {A} (op : Todo.t -> M A)
      (k : Todo.t -> A -> M unit) (w : World) (todo : Todo.t) (e : Error) :
  silent (op todo) ->
  outcome (Todo.read n w) = inr (Some todo) ->
  outcome (op todo (final (Todo.read n w))) = inl e ->
  sent (events (guarded n label (fun t => bind (op t) (k t)) w)) = []
  /\ logged (events (guarded n label (fun t => bind (op t) (k t)) w))
     = [(label, Some e)].
Proof.
  intros Hs Hr Ho. rewrite guarded_events, Hr, outcome_bind, events_bind, Ho.
  rewrite !sent_app, !logged_app.
  destruct (silent_read n w) as [-> ->].
  destruct (Hs (final (Todo.read n w))) as [-> ->]. now split.
Qed.

(** X4.  In [updateTodo], [deleteTodo] and [completeTodo] the [try] block
    also covers the second storage call: when the todo was read and
    [update], [delete] or [markComplete] then throws, the error is printed
    and no response is sent. *)
Theorem second_call_throws_no_response :
  forall (utcDateOf : JsVal -> JsVal) (req : Request) (n : Z) (w : World)
         (todo : Todo.t) (e : Error),
    id req = Some n ->
    outcome (Todo.read n w) = inr (Some todo) ->
    (outcome (Todo.update todo (updateProps utcDateOf req) (final (Todo.read n w)))
     = inl e ->
     sent (events (updateTodo utcDateOf req w)) = []
     /\ logged (events (updateTodo utcDateOf req w))
        = [("Error while updating todo:", Some e)])
    /\ (outcome (Todo.delete todo (final (Todo.read n w))) = inl e ->
        sent (events (deleteTodo req w)) = []
        /\ logged (events (deleteTodo req w))
           = [("Error while deleting todo:", Some e)])
    /\ (outcome (Todo.markComplete todo (final (Todo.read n w))) = inl e ->
        sent (events (completeTodo req w)) = []
        /\ logged (events (completeTodo req w))
           = [("Error while marking todo as complete:", Some e)]).
Proof.
  intros u req n w todo e Hid Hr.
  rewrite (updateTodo_guarded u req n Hid), (deleteTodo_guarded req n Hid),
    (completeTodo_guarded req n Hid).
  split; [|split]; intros Ho.
  - apply (logged_guarded_found_throws n _
                (fun t => Todo.update t (updateProps u req))
                (fun _ t' => send OK "Todo updated successfully!"
                               (Some (TodoPayload (Todo.props t'))))
                w todo e (silent_update _ _) Hr Ho).
  - apply (logged_guarded_found_throws n _ Todo.delete
                (fun t deleted =>
                   if deleted
                   then send OK "Todo deleted successfully!"
                          (Some (TodoPayload (Todo.props t)))
                   else send InternalServerError "Error while deleting todo." None)
                w todo e (silent_delete _) Hr Ho).
  - apply (logged_guarded_found_throws n _ Todo.markComplete
                (fun _ t' => send OK "Todo marked as complete!"
                               (Some (TodoPayload (Todo.props t'))))
                w todo e (silent_markComplete _) Hr Ho).
Qed.

(** ** [read], and the handlers over a quiet storage *)

Lemma hd_error_filter {A} (p : A -> bool) (l : list A) :
  hd_error (filter p l) = find p l.
Proof. induction l as [|x l IH]; simpl; [reflexivity|]. now destruct (p x). Qed.

Lemma find_none_existsb {A} (p : A -> bool) (l : list A) :
  existsb p l = false <-> find p l = None.
Proof.
  induction l as [|x l IH]; simpl; [tauto|].
  destruct (p x); simpl; [split; discriminate | exact IH].
Qed.

Lemma find_app {A} (p : A -> bool) (l l' : list A) :
  find p (l ++ l')%list = match find p l with
                          | Some x => Some x
                          | None => find p l'
                          end.
Proof. induction l as [|x l IH]; simpl; [reflexivity|]. now destruct (p x). Qed.

Lemma calm_weaken (n : nat) (sched : list Ext) :
  calm (S n) sched = true -> calm n sched = true.
Proof.
  revert sched. induction n as [|n IH]; intros sched H; [reflexivity|].
  destruct sched as [|[] later]; cbn in *; try discriminate; auto.
Qed.

Lemma run_eta {A} (r : Run A) : r = mkRun (outcome r) (final r) (events r).
Proof. now destruct r. Qed.

Lemma read_tail (x : option Row) (w : World) :
  match x with
  | None => ret None
  | Some row => camel <- Todo.camelRow (Some row) ;; ret (Some (Todo.new camel))
  end w
  = mkRun (inr (option_map todo_of_row x)) w [].
Proof. now destruct x. Qed.

Lemma exec_select (n : Z) (d : Database) :
  in_int4 n = true ->
  exec (SelectById (JNum n)) d
  = (inr (mkResult (filter (has_id n) (table d))
            (length (filter (has_id n) (table d)))), d).
Proof. intros Hn. unfold exec. now rewrite (bind_id n Hn). Qed.

Lemma exec_select_refused (n : Z) (d : Database) :
  in_int4 n = false ->
  exec (SelectById (JNum n)) d = (inl NumericValueOutOfRange, d).
Proof. intros Hn. unfold exec. now rewrite (bind_id_refused n Hn). Qed.

Lemma read_run (n : Z) d sched clock rd :
  in_int4 n = true ->
  calm 2 sched = true ->
  Todo.read n (mkWorld d sched clock rd)
  = mkRun (inr (option_map todo_of_row (find (has_id n) (table d))))
      (mkWorld d (tl (tl sched)) clock rd) (read_events n).
Proof.
  intros Hn H. apply calm_tl in H as [H1 H2].
  etransitivity.
  { unfold Todo.read.
    eapply bind_steps; [apply reserve_calm; assumption|].
    eapply bind_steps;
      [rewrite query_calm by assumption; rewrite (exec_select n d Hn); reflexivity|].
    eapply bind_steps; [reflexivity|].
    apply read_tail. }
  cbn [rows]. now rewrite hd_error_filter.
Qed.

Lemma read_run_refused (n : Z) d sched clock rd :
  in_int4 n = false ->
  calm 2 sched = true ->
  Todo.read n (mkWorld d sched clock rd)
  = mkRun (inl NumericValueOutOfRange) (mkWorld d (tl (tl sched)) clock rd)
      [EReserve; EQuery (SelectById (JNum n))].
Proof.
  intros Hn H. apply calm_tl in H as [H1 H2].
  unfold Todo.read.
  rewrite (bind_steps _ _ _ tt _ [EReserve] (inl NumericValueOutOfRange)
             (mkWorld d (tl (tl sched)) clock rd) [EQuery (SelectById (JNum n))]
             (reserve_calm d sched clock rd H1)); [reflexivity|].
  apply bind_stops.
  rewrite query_calm by assumption. now rewrite (exec_select_refused n d Hn).
Qed.

Lemma todo_of_row_id (r : Row) : prop (Todo.props (todo_of_row r)) "id" = JNum (r_id r).
Proof. exact (prop_camel_row c_id r). Qed.

Lemma find_has_id (n : Z) (l : list Row) (r : Row) :
  find (has_id n) l = Some r -> r_id r = n /\ In r l.
Proof.
  intros H. apply find_some in H as [Hin Hid]. split; [|assumption].
  unfold has_id in Hid. apply andb_true_iff in Hid as [_ Hid].
  now apply Z.eqb_eq.
Qed.

(** X5.  With the storage answering, [Todo.read] of an id that is an int4
    returns the entity of the first row under the id, whose [id] is the one
    asked for, and no entity when the table has no such row; the table is
    left as it was and the connection is released.  An id that is no int4
    is refused by the storage: [read] throws, and the connection it has
    reserved is not released. *)
Theorem read_returns_the_row_or_nothing :
  forall (n : Z) (w : World),
    calm 2 (schedule w) = true ->
    (in_int4 n = true ->
     outcome (Todo.read n w)
     = inr (option_map todo_of_row (find (has_id n) (table (db w))))
     /\ (outcome (Todo.read n w) = inr None
         <-> existsb (has_id n) (table (db w)) = false)
     /\ (forall todo, outcome (Todo.read n w) = inr (Some todo) ->
                      prop (Todo.props todo) "id" = JNum n)
     /\ db (final (Todo.read n w)) = db w
     /\ events (Todo.read n w) = read_events n)
    /\ (in_int4 n = false ->
        outcome (Todo.read n w) = inl NumericValueOutOfRange
        /\ db (final (Todo.read n w)) = db w
        /\ events (Todo.read n w) = [EReserve; EQuery (SelectById (JNum n))]).
Proof.
  intros n [d sched clock rd] H. cbn [schedule db] in *. split; intros Hn.
  - rewrite (read_run n d sched clock rd Hn H). cbn [outcome final events db].
    repeat split.
    + intros Ho. apply find_none_existsb.
      destruct (find (has_id n) (table d)); [discriminate Ho | reflexivity].
    + intros Hx. apply find_none_existsb in Hx. now rewrite Hx.
    + intros todo Ho.
      destruct (find (has_id n) (table d)) as [r|] eqn:E; [|discriminate Ho].
      injection Ho as <-. rewrite todo_of_row_id.
      now destruct (find_has_id n _ r E) as [-> _].
  - rewrite (read_run_refused n d sched clock rd Hn H). repeat split.
Qed.

Lemma guarded_run_none n label found w w1 ev1 :
  Todo.read n w = mkRun (inr None) w1 ev1 ->
  guarded n label found w = mkRun (inr tt) w1 (ev1 ++ [not_found]).
Proof.
  intros Hr. unfold guarded, tryCatch.
  now rewrite (bind_steps _ _ w None w1 ev1 (inr tt) w1 [not_found] Hr eq_refl).
Qed.

Lemma guarded_run_found n label found w todo w1 ev1 w2 ev2 :
  Todo.read n w = mkRun (inr (Some todo)) w1 ev1 ->
  found todo w1 = mkRun (inr tt) w2 ev2 ->
  guarded n label found w = mkRun (inr tt) w2 (ev1 ++ ev2).
Proof.
  intros Hr Hf. unfold guarded, tryCatch.
  now rewrite (bind_steps _ _ w (Some todo) w1 ev1 (inr tt) w2 ev2 Hr Hf).
Qed.

Lemma guarded_run_found_throws n label found w todo w1 ev1 e w2 ev2 :
  Todo.read n w = mkRun (inr (Some todo)) w1 ev1 ->
  found todo w1 = mkRun (inl e) w2 ev2 ->
  guarded n label found w = mkRun (inr tt) w2 (ev1 ++ ev2 ++ [ELog label (Some e)]).
Proof.
  intros Hr Hf. unfold guarded, tryCatch.
  rewrite (bind_steps _ _ w (Some todo) w1 ev1 (inl e) w2 ev2 Hr Hf).
  cbn. now rewrite app_assoc.
Qed.

Lemma guarded_run_read_throws n label found w e w1 ev1 :
  Todo.read n w = mkRun (inl e) w1 ev1 ->
  guarded n label found w = mkRun (inr tt) w1 (ev1 ++ [ELog label (Some e)]).
Proof.
  intros Hr. unfold guarded, tryCatch.
  now rewrite (bind_stops _ _ w e w1 ev1 Hr).
Qed.

(** X6.  [updateTodo], [deleteTodo] and [completeTodo] on an id the table
    does not hold, with the storage answering.  When the id is an int4, the
    handler answers 404 "Not found" after the one SELECT and stops; no
    second statement is sent and the database is as before.  When the id is
    no int4, the SELECT is refused: the handler prints the error, sends no
    response and does not release the connection. *)
Theorem missing_id_is_not_found :
  forall (utcDateOf : JsVal -> JsVal) (req : Request) (n : Z) (w : World),
    id req = Some n ->
    calm 2 (schedule w) = true ->
    existsb (has_id n) (table (db w)) = false ->
    (in_int4 n = true ->
     (events (updateTodo utcDateOf req w) = (read_events n ++ [not_found])%list
      /\ db (final (updateTodo utcDateOf req w)) = db w)
     /\ (events (deleteTodo req w) = (read_events n ++ [not_found])%list
         /\ db (final (deleteTodo req w)) = db w)
     /\ (events (completeTodo req w) = (read_events n ++ [not_found])%list
         /\ db (final (completeTodo req w)) = db w))
    /\ (in_int4 n = false ->
        (events (updateTodo utcDateOf req w)
         = [EReserve; EQuery (SelectById (JNum n));
            ELog "Error while updating todo:" (Some NumericValueOutOfRange)]
         /\ db (final (updateTodo utcDateOf req w)) = db w)
        /\ (events (deleteTodo req w)
            = [EReserve; EQuery (SelectById (JNum n));
               ELog "Error while deleting todo:" (Some NumericValueOutOfRange)]
            /\ db (final (deleteTodo req w)) = db w)
        /\ (events (completeTodo req w)
            = [EReserve; EQuery (SelectById (JNum n));
               ELog "Error while marking todo as complete:"
                 (Some NumericValueOutOfRange)]
            /\ db (final (completeTodo req w)) = db w)).
Proof.
  intros u req n [d sched clock rd] Hid H Hx. cbn [schedule db] in *.
  rewrite (updateTodo_guarded u req n Hid), (deleteTodo_guarded req n Hid),
    (completeTodo_guarded req n Hid).
  split; intros Hn.
  - pose proof (read_run n d sched clock rd Hn H) as Hr.
    apply find_none_existsb in Hx. rewrite Hx in Hr. cbn [option_map] in Hr.
    rewrite !(guarded_run_none n _ _ _ _ _ Hr). repeat split.
  - pose proof (read_run_refused n d sched clock rd Hn H) as Hr.
    rewrite !(guarded_run_read_throws n _ _ _ _ _ _ Hr). repeat split.
Qed.

Lemma getTodo_run (req : Request) (n : Z) w found w1 ev1 :
  id req = Some n ->
  Todo.read n w = mkRun (inr found) w1 ev1 ->
  getTodo req w
  = mkRun (inr tt) w1
      (ev1 ++ [match found with
               | Some todo => ESend (mkResponse OK "Todo retrieved"
                                       (Some (TodoPayload (Todo.props todo))))
               | None => not_found
               end]).
Proof.
  intros Hid Hr. unfold getTodo. rewrite Hid.
  eapply bind_steps.
  - unfold tryCatch. rewrite Hr. reflexivity.
  - now destruct found.
Qed.

Lemma getTodo_run_throws (req : Request) (n : Z) w e w1 ev1 :
  id req = Some n ->
  Todo.read n w = mkRun (inl e) w1 ev1 ->
  getTodo req w
  = mkRun (inr tt) w1
      (ev1 ++ [ELog (list_error_message e) None;
               ESend (mkResponse InternalServerError (list_error_message e) None);
               not_found]).
Proof.
  intros Hid Hr. unfold getTodo. rewrite Hid.
  unfold bind at 1, tryCatch. rewrite Hr. cbn. now rewrite <- app_assoc.
Qed.

(** X7.  With the storage answering, [getTodo] of an id that is an int4
    answers by the table: 200 with the props of the first row under the id
    when there is one, 404 otherwise; one SELECT, one response, nothing
    changed.  For an id that is no int4 the SELECT is refused, and the
    handler answers twice, 500 and then 404, the connection not released. *)
Theorem getTodo_answers_by_the_table :
  forall (req : Request) (n : Z) (w : World),
    id req = Some n ->
    calm 2 (schedule w) = true ->
    (in_int4 n = true ->
     events (getTodo req w)
     = (read_events n ++
        [match find (has_id n) (table (db w)) with
         | Some r => ESend (mkResponse OK "Todo retrieved"
                              (Some (TodoPayload (Todo.props (todo_of_row r)))))
         | None => not_found
         end])%list
     /\ db (final (getTodo req w)) = db w)
    /\ (in_int4 n = false ->
        events (getTodo req w)
        = [EReserve; EQuery (SelectById (JNum n));
           ELog (list_error_message NumericValueOutOfRange) None;
           ESend (mkResponse InternalServerError
                    (list_error_message NumericValueOutOfRange) None);
           not_found]
        /\ db (final (getTodo req w)) = db w).
Proof.
  intros req n [d sched clock rd] Hid H. cbn [schedule db] in *. split; intros Hn.
  - rewrite (getTodo_run req n _ _ _ _ Hid (read_run n d sched clock rd Hn H)).
    cbn [events final db]. split; [|reflexivity].
    now destruct (find (has_id n) (table d)).
  - rewrite (getTodo_run_throws req n _ _ _ _ Hid
               (read_run_refused n d sched clock rd Hn H)).
    split; reflexivity.
Qed.

(** ** Deleting, and creating then fetching *)

Lemma exec_delete (n : Z) (d : Database) :
  in_int4 n = true ->
  exec (Delete (JNum n)) d
  = (inr (mkResult [] (length (filter (has_id n) (table d)))),
     mkDb (filter (fun r => negb (has_id n r)) (table d)) (serial d)).
Proof. intros Hn. unfold exec. now rewrite (bind_id n Hn). Qed.

Lemma delete_run (this : Todo.t) (n : Z) d sched clock rd :
  prop (Todo.props this) "id" = JNum n ->
  in_int4 n = true ->
  calm 2 sched = true ->
  Todo.delete this (mkWorld d sched clock rd)
  = mkRun (inr (Nat.eqb (length (filter (has_id n) (table d))) 1))
      (mkWorld (mkDb (filter (fun r => negb (has_id n r)) (table d)) (serial d))
         (tl (tl sched)) clock rd)
      [EReserve; EQuery (Delete (JNum n)); ERelease].
Proof.
  intros Hid Hn H. apply calm_tl in H as [H1 H2].
  etransitivity.
  { unfold Todo.delete. rewrite Hid.
    eapply bind_steps; [apply reserve_calm; assumption|].
    eapply bind_steps;
      [rewrite query_calm by assumption; rewrite (exec_delete n d Hn); reflexivity|].
    eapply bind_steps; reflexivity. }
  reflexivity.
Qed.

Lemma filter_single_find {A} (p : A -> bool) (l : list A) :
  length (filter p l) = 1 -> exists x, find p l = Some x.
Proof.
  rewrite <- hd_error_filter.
  destruct (filter p l); [discriminate | intros _; eexists; reflexivity].
Qed.

Lemma find_after_delete (n : Z) (l : list Row) :
  find (has_id n) (filter (fun r => negb (has_id n r)) l) = None.
Proof.
  induction l as [|x l IH]; simpl; [reflexivity|].
  destruct (has_id n x) eqn:E; simpl; [exact IH|]. now rewrite E.
Qed.

(** X8.  Deleting the same todo twice.  With the storage answering and one
    row under the id, the first [deleteTodo] answers 200 with that row's
    props and removes the row, leaving every other row in place; the second
    one finds nothing and answers 404. *)
Theorem delete_twice :
  forall (req : Request) (n : Z) (w : World),
    id req = Some n ->
    calm 6 (schedule w) = true ->
    length (filter (has_id n) (table (db w))) = 1 ->
    exists r,
      find (has_id n) (table (db w)) = Some r
      /\ sent (events (deleteTodo req w))
         = [mkResponse OK "Todo deleted successfully!"
              (Some (TodoPayload (Todo.props (todo_of_row r))))]
      /\ table (db (final (deleteTodo req w)))
         = filter (fun r => negb (has_id n r)) (table (db w))
      /\ sent (events (deleteTodo req (final (deleteTodo req w))))
         = [mkResponse NotFound "Not found" None].
Proof.
  intros req n [d sched clock rd] Hid H Hone. cbn [schedule db] in *.
  destruct (filter_single_find _ _ Hone) as [r Hr]. exists r.
  split; [exact Hr|].
  assert (H2 : calm 2 sched = true) by (now do 4 apply calm_weaken).
  destruct (calm_tl _ _ H) as [_ H5]. destruct (calm_tl _ _ H5) as [_ H4].
  assert (H2' : calm 2 (tl (tl sched)) = true) by (now do 2 apply calm_weaken).
  destruct (calm_tl _ _ H4) as [_ H3]. destruct (calm_tl _ _ H3) as [_ H2''].
  pose proof (find_in_int4 n _ r Hr) as Hn.
  pose proof (read_run n d sched clock rd Hn H2) as Hread.
  rewrite Hr in Hread. cbn [option_map] in Hread.
  assert (Hrid : prop (Todo.props (todo_of_row r)) "id" = JNum n).
  { rewrite todo_of_row_id. now destruct (find_has_id n _ r Hr) as [-> _]. }
  pose proof (delete_run (todo_of_row r) n d (tl (tl sched)) clock rd Hrid Hn H2')
    as Hdel.
  rewrite Hone in Hdel. cbn [Nat.eqb] in Hdel.
  rewrite (deleteTodo_guarded req n Hid).
  erewrite (guarded_run_found n _ _ _ _ _ _ _ _ Hread).
  2: { eapply bind_steps; [exact Hdel | reflexivity]. }
  cbn [events final db table].
  split; [reflexivity|]. split; [reflexivity|].
  pose proof (read_run n (mkDb (filter (fun r => negb (has_id n r)) (table d))
                            (serial d)) _ clock rd Hn H2'') as Hread2.
  cbn [table] in Hread2. rewrite find_after_delete in Hread2.
  now rewrite (guarded_run_none n _ _ _ _ _ Hread2).
Qed.

Section CreateThenGet.
Variable utcDateOf : JsVal -> JsVal.

Lemma createTodo_run (req : Request) (w : World) todo w2 ev :
  Todo.create (createProps utcDateOf req (now w)) (ticked w)
  = mkRun (inr todo) w2 ev ->
  createTodo utcDateOf req w
  = mkRun (inr tt) w2
      (ev ++ [ESend (mkResponse Created "Todo created successfully!"
                       (Some (TodoPayload (Todo.props todo))))]).
Proof.
  intros Hc. unfold createTodo.
  rewrite (bind_steps createUTCDate _ w (now w) (ticked w) [] (inr tt) w2
             (ev ++ [ESend (mkResponse Created "Todo created successfully!"
                              (Some (TodoPayload (Todo.props todo))))]));
    [reflexivity | reflexivity |].
  apply (bind_steps _ _ (ticked w) (Some todo) w2 ev (inr tt) w2
           [ESend (mkResponse Created "Todo created successfully!"
                     (Some (TodoPayload (Todo.props todo))))]); [|reflexivity].
  unfold tryCatch.
  rewrite (bind_steps _ _ (ticked w) todo w2 ev (inr (Some todo)) w2 [] Hc eq_refl).
  cbn [outcome]. now rewrite app_nil_r.
Qed.

(** X9.  What was created can be fetched.  After [createTodo] has answered
    201 for a valid body, with the storage answering, [getTodo] under the id
    in that payload answers 200 with the very same payload. *)
Theorem created_todo_can_be_fetched :
  forall (req get : Request) (w : World),
    isValidTodoProps (body req) = true ->
    dueAt_parses utcDateOf req = true ->
    calm 4 (schedule w) = true ->
    serial_fresh (db w) = true ->
    id get = Some (serial (db w)) ->
    exists todo,
      sent (events (createTodo utcDateOf req w))
      = [mkResponse Created "Todo created successfully!" (Some (TodoPayload todo))]
      /\ prop todo "id" = JNum (serial (db w))
      /\ sent (events (getTodo get (final (createTodo utcDateOf req w))))
         = [mkResponse OK "Todo retrieved" (Some (TodoPayload todo))].
Proof.
  intros req get [d sched clock rd] Hv Hd Hc Hf Hget. cbn [schedule db] in *.
  assert (Hc2 : calm 2 sched = true) by (now do 2 apply calm_weaken).
  destruct (calm_tl _ _ Hc) as [_ Hc3]. destruct (calm_tl _ _ Hc3) as [_ Hc2'].
  destruct (createTodo_valid_run utcDateOf req d sched clock rd Hv Hd Hc2 Hf)
    as [due Hrun].
  rewrite (createTodo_run req (mkWorld d sched clock rd) _ _ _ Hrun).
  cbn [events final].
  eexists. split; [reflexivity|]. split; [apply todo_of_row_id|].
  unfold serial_fresh in Hf. apply andb_true_iff in Hf as [Hs Hf].
  rewrite (getTodo_run get (serial d) _ _ _ _ Hget (read_run _ _ _ _ _ Hs Hc2')).
  cbn [table events]. rewrite find_app.
  apply negb_true_iff, find_none_existsb in Hf.
  rewrite Hf. cbn [find]. unfold has_id, inserted_row. cbn [r_id].
  rewrite Hs, Z.eqb_refl. reflexivity.
Qed.

End CreateThenGet.

(** ** Reserving and releasing *)

Lemma scoped_events {A} (s : Stmt) (k : QueryResult -> M A) (w : World) :
  (forall res w', events (k res w') = [] /\ returned (k res w') = true) ->
  events (bind reserve (fun _ => bind (query s)
            (fun res => bind release (fun _ => k res))) w)
  = scoped_trace s (faulted w)
      (returned (bind reserve (fun _ => bind (query s)
                   (fun res => bind release (fun _ => k res))) w)).
Proof.
  intros Hk. unfold returned, scoped_trace, faulted.
  rewrite events_bind, outcome_bind, events_reserve.
  destruct w as [d sched clock rd]. cbn [schedule].
  destruct sched as [|[|e|l] later]; cbn [reserve bind emit env_step outcome final
                                           events schedule app db time_at reads];
    try reflexivity.
  all: rewrite events_bind, outcome_bind, events_query;
    match goal with
    | |- context [outcome (query ?q ?w1)] =>
        destruct (outcome (query q w1)) as [e'|res]; [reflexivity|];
        rewrite events_bind, outcome_bind; cbn [release emit outcome final events app];
        destruct (Hk res (final (query q w1))) as [-> Hret];
        unfold returned in Hret;
        destruct (outcome (k res (final (query q w1)))); [discriminate Hret|reflexivity]
    end.
Qed.

(** X10.  [Todo.read], [Todo.readAll] and [Todo.delete] release the
    connection exactly when they return.  In every world the events of such
    an operation are: the reserve alone when reserving fails; reserve,
    statement and release when the operation returns; and reserve and
    statement without a release when it throws after reserving, so the
    connection it holds is never handed back. *)
Theorem release_only_on_return :
  forall (w : World) (n : Z) (this : Todo.t)
         (filters : option (Obj JsVal)) (sortBy orderBy : option string),
    events (Todo.read n w)
    = scoped_trace (SelectById (JNum n)) (faulted w) (returned (Todo.read n w))
    /\ events (Todo.delete this w)
       = scoped_trace (Delete (prop (Todo.props this) "id")) (faulted w)
           (returned (Todo.delete this w))
    /\ (exists s, events (Todo.readAll filters sortBy orderBy w)
                  = scoped_trace s (faulted w)
                      (returned (Todo.readAll filters sortBy orderBy w))).
Proof.
  intros w n this filters sortBy orderBy. split; [|split].
  - apply (scoped_events (SelectById (JNum n))
             (fun result =>
                match hd_error (rows result) with
                | None => ret None
                | Some row => camel <- Todo.camelRow (Some row) ;;
                              ret (Some (Todo.new camel))
                end) w).
    intros res w'. now destruct (hd_error (rows res)).
  - apply (scoped_events (Delete (prop (Todo.props this) "id"))
             (fun result => ret (Nat.eqb (count result) 1)) w).
    now intros res w'.
  - eexists.
    apply (scoped_events _
             (fun result =>
                ret (map (fun row => Todo.new (convertToCase snakeToCamel (row_object row)))
                       (rows result))) w).
    now intros res w'.
Qed.

(** ** Listing *)

Lemma string_compare_refl (s : string) : String.compare s s = Eq.
Proof.
  pose proof (String.compare_antisym s s) as H.
  destruct (String.compare s s); [reflexivity | discriminate H | discriminate H].
Qed.

Lemma status_filter_has_status (s : string) (r : Row) :
  match cell_compare (r_status r) (JStr s) with
  | Eq => negb (nullish (JStr s))
  | _ => false
  end = has_status s r.
Proof.
  unfold has_status. destruct (r_status r) as [| | | |x| |]; try reflexivity.
  cbn [cell_compare nullish negb].
  destruct (String.eqb_spec x s) as [->|Hne].
  - now rewrite string_compare_refl.
  - destruct (String.compare x s) eqn:E; try reflexivity.
    now apply String.compare_eq_iff in E.
Qed.

Lemma exec_select_listed (req : Request) (c : Column) (dir : Direction) (d : Database) :
  let status := match statusFilterOf req with
                | Some s => JStr s
                | None => JNull
                end in
  exec (SelectAll (if truthy status then Some status else None) (Some c) (Some dir)) d
  = (inr (mkResult (sort_rows (row_leb c dir) (listed req (table d)))
            (length (sort_rows (row_leb c dir) (listed req (table d))))), d).
Proof.
  cbv zeta. unfold listed. destruct (statusFilterOf req) as [s|]; [|reflexivity].
  cbn [truthy]. destruct (s =? ""); cbn [negb]; [reflexivity|].
  cbn [exec bind_value]. cbn [cell].
  now rewrite (filter_ext _ _ (status_filter_has_status s)).
Qed.

Lemma readAll_run filters sortBy orderBy d sched clock rd res d' :
  calm 2 sched = true ->
  let s := SelectAll
             (if truthy (match filters with
                         | Some f => prop f "status"
                         | None => JUndefined
                         end)
              then Some (match filters with
                         | Some f => prop f "status"
                         | None => JUndefined
                         end)
              else None)
             (Todo.fragment sortBy Todo.getSortBy)
             (Todo.fragment orderBy Todo.getOrderBy) in
  exec s d = (res, d') ->
  Todo.readAll filters sortBy orderBy (mkWorld d sched clock rd)
  = mkRun (match res with
           | inl e => inl e
           | inr result => inr (map todo_of_row (rows result))
           end)
      (mkWorld d' (tl (tl sched)) clock rd)
      (EReserve :: EQuery s :: match res with
                               | inl _ => []
                               | inr _ => [ERelease]
                               end).
Proof.
  intros H s Hx. apply calm_tl in H as [H1 H2].
  unfold Todo.readAll. cbv zeta. fold s.
  destruct res as [e|result].
  - etransitivity.
    { eapply bind_steps; [apply reserve_calm; assumption|].
      eapply bind_stops. rewrite query_calm by assumption. rewrite Hx. reflexivity. }
    reflexivity.
  - etransitivity.
    { eapply bind_steps; [apply reserve_calm; assumption|].
      eapply bind_steps; [rewrite query_calm by assumption; rewrite Hx; reflexivity|].
      eapply bind_steps; reflexivity. }
    reflexivity.
Qed.

(** X11.  With the storage answering and a request that passes the three
    checks with a non-empty [sortBy] and [orderBy], [getTodoList] sends one
    response, a 200 whose list holds exactly the rows of the status asked
    for (every row when no status is given), in the order of the resolved
    column and direction; the table is not changed. *)
Theorem getTodoList_lists_by_status :
  forall (req : Request) (w : World),
    status_check_fails req = false ->
    sortBy_check_fails req = false ->
    orderBy_check_fails req = false ->
    sortByOf req <> "" ->
    orderByOf req <> "" ->
    calm 2 (schedule w) = true ->
    sent (events (getTodoList req w))
    = [list_response
         (sort_rows (row_leb (Todo.getSortBy (sortByOf req))
                       (Todo.getOrderBy (orderByOf req)))
            (listed req (table (db w))))].
Proof.
  intros req [d sched clock rd] H1 H2 H3 Hs Ho Hc. cbn [schedule db] in *.
  rewrite (getTodoList_checked req _ H1 H2 H3). cbv zeta.
  rewrite (readAll_run (listFilters req) (Some (sortByOf req)) (Some (orderByOf req))
             d sched clock rd _ _ Hc
             (eq_trans
                (f_equal2 (fun a b => exec (SelectAll _ a b) d)
                   (fragment_given (sortByOf req) Todo.getSortBy Hs)
                   (fragment_given (orderByOf req) Todo.getOrderBy Ho))
                (exec_select_listed req _ _ d))).
  cbn [outcome events rows app sent]. unfold list_response. now rewrite map_map.
Qed.

(** X12.  A [sortBy] that is present but empty is not checked by
    [getTodoList]; with an [orderBy] in force, [Todo.readAll] then sends a
    SELECT with a direction and no ORDER BY, the statement fails as a syntax
    error, and the handler answers 500 and then 200 with an empty list. *)
Theorem empty_sortBy_breaks_the_statement :
  forall (req : Request) (w : World),
    searchParam req "sortBy" = Some "" ->
    status_check_fails req = false ->
    orderBy_check_fails req = false ->
    orderByOf req <> "" ->
    calm 2 (schedule w) = true ->
    sortBy_check_fails req = false
    /\ (exists where_status,
          nth_error (events (getTodoList req w)) 1
          = Some (EQuery (SelectAll where_status None
                            (Some (Todo.getOrderBy (orderByOf req))))))
    /\ sent (events (getTodoList req w))
       = [mkResponse InternalServerError (list_error_message SyntaxError) None;
          mkResponse OK "Todo list retrieved" (Some (TodosPayload []))].
Proof.
  intros req [d sched clock rd] Hsort H1 H3 Ho Hc. cbn [schedule db] in *.
  assert (H2 : sortBy_check_fails req = false).
  { unfold sortBy_check_fails, sortByOf. now rewrite Hsort. }
  split; [exact H2|].
  rewrite (getTodoList_checked req _ H1 H2 H3). cbv zeta.
  assert (Hx : exists where_status,
             exec (SelectAll
                     (if truthy (match listFilters req with
                                 | Some f => prop f "status"
                                 | None => JUndefined
                                 end)
                      then Some (match listFilters req with
                                 | Some f => prop f "status"
                                 | None => JUndefined
                                 end)
                      else None)
                     (Todo.fragment (Some (sortByOf req)) Todo.getSortBy)
                     (Todo.fragment (Some (orderByOf req)) Todo.getOrderBy)) d
             = (inl SyntaxError, d)
             /\ (if truthy (match listFilters req with
                            | Some f => prop f "status"
                            | None => JUndefined
                            end)
                 then Some (match listFilters req with
                            | Some f => prop f "status"
                            | None => JUndefined
                            end)
                 else None) = where_status).
  { rewrite (fragment_given _ _ Ho). unfold sortByOf. rewrite Hsort.
    unfold listFilters. cbn [prop obj_find String.eqb Ascii.eqb Bool.eqb andb].
    eexists. split; [|reflexivity].
    destruct (statusFilterOf req) as [s|]; cbn [truthy]; [|reflexivity].
    now destruct (s =? ""). }
  destruct Hx as (where_status & Hx & Hw).
  rewrite (readAll_run (listFilters req) (Some (sortByOf req)) (Some (orderByOf req))
             d sched clock rd (inl SyntaxError) d Hc Hx).
  cbn [outcome events app sent nth_error]. rewrite Hw, (fragment_given _ _ Ho).
  unfold sortByOf at 1. rewrite Hsort. split; [|reflexivity].
  now exists where_status.
Qed.

(** ** Updating *)

Lemma update_run_fails this ups d sched clock rd e d' :
  calm 2 sched = true ->
  exec (Update (convertToCase camelToSnake ups) (JDate (clock rd))
          (prop (Todo.props this) "id")) d = (inl e, d') ->
  Todo.update this ups (mkWorld d sched clock rd)
  = mkRun (inl e) (mkWorld d' (tl (tl sched)) clock (S rd))
      [EReserve;
       EQuery (Update (convertToCase camelToSnake ups) (JDate (clock rd))
                 (prop (Todo.props this) "id"))].
Proof.
  intros H Hx. apply calm_tl in H as [H1 H2].
  etransitivity.
  { unfold Todo.update.
    eapply bind_steps; [apply reserve_calm; assumption|]. cbv beta zeta.
    eapply bind_steps; [reflexivity|]. cbn [time_at reads db schedule].
    eapply bind_stops. rewrite query_calm by assumption. rewrite Hx. reflexivity. }
  reflexivity.
Qed.

Lemma filter_find {A} (p : A -> bool) (l : list A) (x : A) :
  find p l = Some x -> exists rest, filter p l = x :: rest.
Proof.
  rewrite <- hd_error_filter. destruct (filter p l) as [|y rest]; [discriminate|].
  intros [= ->]. now exists rest.
Qed.

Section Updating.
Variable utcDateOf : JsVal -> JsVal.

(** X13.  [updateTodo] with a body in which neither [title] nor
    [description] nor [dueAt] is truthy (an empty body, or empty strings)
    still reads the todo and then sends an UPDATE with an empty column
    list; the statement fails as a syntax error, which is printed: no
    response is sent and the table is unchanged. *)
Theorem update_without_fields_is_unanswered :
  forall (req : Request) (n : Z) (w : World),
    id req = Some n ->
    calm 4 (schedule w) = true ->
    existsb (has_id n) (table (db w)) = true ->
    truthy (prop (body req) "title") = false ->
    truthy (prop (body req) "description") = false ->
    truthy (prop (body req) "dueAt") = false ->
    events (updateTodo utcDateOf req w)
    = (read_events n ++
       [EReserve; EQuery (Update [] (now w) (JNum n));
        ELog "Error while updating todo:" (Some SyntaxError)])%list
    /\ db (final (updateTodo utcDateOf req w)) = db w.
Proof.
  intros req n [d sched clock rd] Hid Hc Hex Ht Hd Hdue. cbn [schedule db] in *.
  assert (Hc2 : calm 2 sched = true) by (now do 2 apply calm_weaken).
  destruct (calm_tl _ _ Hc) as [_ Hc3]. destruct (calm_tl _ _ Hc3) as [_ Hc2'].
  destruct (find (has_id n) (table d)) as [r|] eqn:Hr.
  2: { apply find_none_existsb in Hr. congruence. }
  pose proof (read_run n d sched clock rd (exists_in_int4 n _ Hex) Hc2) as Hread.
  rewrite Hr in Hread. cbn [option_map] in Hread.
  assert (Hups : updateProps utcDateOf req = []).
  { unfold updateProps. now rewrite Ht, Hd, Hdue. }
  assert (Hrid : prop (Todo.props (todo_of_row r)) "id" = JNum n).
  { rewrite todo_of_row_id. now destruct (find_has_id n _ r Hr) as [-> _]. }
  pose proof (update_run_fails (todo_of_row r) [] d (tl (tl sched)) clock rd
                SyntaxError d Hc2') as Hup.
  rewrite Hrid in Hup. specialize (Hup eq_refl).
  rewrite (updateTodo_guarded utcDateOf req n Hid), Hups.
  rewrite (guarded_run_found_throws n _ _ _ _ _ _ SyntaxError _ _ Hread
             (bind_stops _ _ _ _ _ _ Hup)).
  split; reflexivity.
Qed.

Lemma exec_update_ok (values : Obj JsVal) (cs : list (Column * JsVal))
      (t : Timestamp) (n : Z) (d : Database) :
  in_int4 n = true ->
  values <> [] ->
  bind_cells values = inr cs ->
  assigns c_edited_at cs = false ->
  writes_null cs = false ->
  let change r := set_cell c_edited_at (JDate t) (assign cs r) in
  exec (Update values (JDate t) (JNum n)) d
  = (inr (mkResult (map change (filter (has_id n) (table d)))
            (length (map change (filter (has_id n) (table d))))),
     mkDb (filter (fun r => negb (has_id n r)) (table d)
           ++ map change (filter (has_id n) (table d))) (serial d)).
Proof.
  intros Hn Hne Hb Ha Hw. cbv zeta. unfold exec. cbn [is_undefined orb].
  destruct values as [|kv values]; [congruence|].
  rewrite Hb, (bind_id n Hn). cbn [bind_value]. now rewrite Ha, Hw.
Qed.

Lemma string_or_falsy_truthy (v : JsVal) :
  string_or_falsy v = true -> truthy v = true -> exists s, v = JStr s.
Proof.
  destruct v; cbn; intros H1 H2; try (rewrite H2 in H1; discriminate H1);
    try discriminate; eauto.
Qed.

Lemma updateProps_cells (req : Request) :
  update_typed utcDateOf req = true ->
  updateProps utcDateOf req <> [] ->
  exists cs,
    bind_cells (convertToCase camelToSnake (updateProps utcDateOf req)) = inr cs
    /\ convertToCase camelToSnake (updateProps utcDateOf req) <> []
    /\ assigns c_edited_at cs = false
    /\ writes_null cs = false
    /\ forall r,
         r_id (assign cs r) = r_id r
         /\ r_status (assign cs r) = r_status r
         /\ r_created_at (assign cs r) = r_created_at r
         /\ r_completed_at (assign cs r) = r_completed_at r
         /\ r_title (assign cs r)
            = updated (prop (body req) "title") (prop (body req) "title") (r_title r)
         /\ r_description (assign cs r)
            = updated (prop (body req) "description") (prop (body req) "description")
                (r_description r)
         /\ r_due_at (assign cs r)
            = updated (prop (body req) "dueAt") (utcDateOf (prop (body req) "dueAt"))
                (r_due_at r).
Proof.
  unfold update_typed, dueAt_parses, updateProps, updated.
  intros Ht Hne.
  apply andb_prop in Ht as [Ht Hdue]. apply andb_prop in Ht as [Ht Hd].
  destruct (truthy (prop (body req) "title")) eqn:Et;
    [destruct (string_or_falsy_truthy _ Ht Et) as [s1 ->]|];
    (destruct (truthy (prop (body req) "description")) eqn:Ed;
     [destruct (string_or_falsy_truthy _ Hd Ed) as [s2 ->]|]);
    (destruct (truthy (prop (body req) "dueAt")) eqn:Edue;
     [destruct (utcDateOf (prop (body req) "dueAt")) as [| | | | |due|];
      try discriminate Hdue|]);
    try (exfalso; apply Hne; reflexivity);
    (eexists; split; [reflexivity|]; split; [discriminate|];
     split; [reflexivity|]; split; [reflexivity|]; intros r; repeat split).
Qed.

(** X14.  [updateTodo] with a well-typed body that has at least one truthy
    field, on a stored todo and with the storage answering: one response, a
    200 whose todo has [editedAt] set to the current time, each of [title],
    [description] and [dueAt] taken from the body when truthy there and
    kept as stored otherwise, and [id], [status], [createdAt] and
    [completedAt] as stored. *)
Theorem updateTodo_changes_the_given_fields :
  forall (req : Request) (n : Z) (w : World) (r : Row),
    id req = Some n ->
    calm 4 (schedule w) = true ->
    find (has_id n) (table (db w)) = Some r ->
    update_typed utcDateOf req = true ->
    updateProps utcDateOf req <> [] ->
    exists todo,
      sent (events (updateTodo utcDateOf req w))
      = [mkResponse OK "Todo updated successfully!" (Some (TodoPayload todo))]
      /\ prop todo "editedAt" = now w
      /\ prop todo "title"
         = updated (prop (body req) "title") (prop (body req) "title") (r_title r)
      /\ prop todo "description"
         = updated (prop (body req) "description") (prop (body req) "description")
             (r_description r)
      /\ prop todo "dueAt"
         = updated (prop (body req) "dueAt") (utcDateOf (prop (body req) "dueAt"))
             (r_due_at r)
      /\ prop todo "id" = JNum n
      /\ prop todo "status" = r_status r
      /\ prop todo "createdAt" = r_created_at r
      /\ prop todo "completedAt" = r_completed_at r.
Proof.
  intros req n [d sched clock rd] r Hid Hc Hr Hty Hne. cbn [schedule db] in *.
  assert (Hc2 : calm 2 sched = true) by (now do 2 apply calm_weaken).
  destruct (calm_tl _ _ Hc) as [_ Hc3]. destruct (calm_tl _ _ Hc3) as [_ Hc2'].
  pose proof (find_in_int4 n _ r Hr) as Hn.
  pose proof (read_run n d sched clock rd Hn Hc2) as Hread.
  rewrite Hr in Hread. cbn [option_map] in Hread.
  destruct (find_has_id n _ r Hr) as [Hrn _].
  assert (Hrid : prop (Todo.props (todo_of_row r)) "id" = JNum n).
  { rewrite todo_of_row_id. now rewrite Hrn. }
  destruct (updateProps_cells req Hty Hne) as (cs & Hb & Hvne & Ha & Hw & Hcells).
  destruct (filter_find _ _ _ Hr) as [rest Hfilter].
  pose proof (exec_update_ok _ cs (clock rd) n d Hn Hvne Hb Ha Hw) as Hx.
  cbv zeta in Hx. rewrite Hfilter in Hx. cbn [map] in Hx.
  epose proof (update_calm (todo_of_row r) (updateProps utcDateOf req) d
                 (tl (tl sched)) clock rd _ _ _ _ Hc2') as Hup.
  rewrite Hrid in Hup. specialize (Hup Hx eq_refl).
  rewrite (updateTodo_guarded utcDateOf req n Hid).
  erewrite (guarded_run_found n _ _ _ _ _ _ _ _ Hread).
  2: { eapply bind_steps; [exact Hup | reflexivity]. }
  cbn [events Todo.props]. rewrite !sent_app. cbn [sent read_events app].
  eexists. split; [reflexivity|].
  destruct (Hcells r) as (H1 & H2 & H3 & H4 & H5 & H6 & H7).
  split; [exact (prop_spread_row _ c_edited_at _)|].
  split; [rewrite <- H5; exact (prop_spread_row _ c_title _)|].
  split; [rewrite <- H6; exact (prop_spread_row _ c_description _)|].
  split; [rewrite <- H7; exact (prop_spread_row _ c_due_at _)|].
  split; [rewrite <- Hrn, <- H1; exact (prop_spread_row _ c_id _)|].
  split; [rewrite <- H2; exact (prop_spread_row _ c_status _)|].
  split; [rewrite <- H3; exact (prop_spread_row _ c_created_at _)|].
  rewrite <- H4; exact (prop_spread_row _ c_completed_at _).
Qed.

End Updating.

(** ** What the handlers keep *)

Section Keeping.
Variable I : Database -> Prop.

Lemma keeps_ret {A} (a : A) : keeps I (ret a).
Proof. intros w Hn HI. now split. Qed.

Lemma keeps_throw {A} (e : Error) : keeps I (@throw A e).
Proof. intros w Hn HI. now split. Qed.

Lemma keeps_emit (e : Event) : keeps I (emit e).
Proof. intros w Hn HI. now split. Qed.

Lemma keeps_createUTCDate : keeps I createUTCDate.
Proof. intros w Hn HI. now split. Qed.

Lemma keeps_env_step : keeps I env_step.
Proof.
  intros [d sched clock rd] Hn HI. unfold env_step. cbn [schedule db] in *.
  destruct sched as [|[| |] later]; cbn in *; try discriminate Hn; now split.
Qed.

Lemma keeps_bind {A B} (m : M A) (k : A -> M B) :
  keeps I m -> (forall a, keeps I (k a)) -> keeps I (bind m k).
Proof.
  intros Hm Hk w Hn HI. rewrite final_bind.
  destruct (Hm w Hn HI) as [Hn' HI'].
  destruct (outcome (m w)) as [e|a]; [now split | now apply Hk].
Qed.

Lemma keeps_bind_value {A B} (Q : A -> Prop) (m : M A) (k : A -> M B) :
  keeps I m ->
  (forall w a, outcome (m w) = inr a -> Q a) ->
  (forall a, Q a -> keeps I (k a)) ->
  keeps I (bind m k).
Proof.
  intros Hm HQ Hk w Hn HI. rewrite final_bind.
  destruct (Hm w Hn HI) as [Hn' HI'].
  destruct (outcome (m w)) as [e|a] eqn:E; [now split|].
  apply (Hk a (HQ w a E)); assumption.
Qed.

Lemma keeps_tryCatch {A} (m : M A) (h : Error -> M A) :
  keeps I m -> (forall e, keeps I (h e)) -> keeps I (tryCatch m h).
Proof.
  intros Hm Hh w Hn HI. rewrite final_tryCatch.
  destruct (Hm w Hn HI) as [Hn' HI'].
  destruct (outcome (m w)) as [e|a]; [now apply Hh | now split].
Qed.

Lemma keeps_reserve : keeps I reserve.
Proof. apply keeps_bind; [apply keeps_emit | intros _; apply keeps_env_step]. Qed.

Lemma keeps_query (s : Stmt) : stmt_keeps I s -> keeps I (query s).
Proof.
  intros Hs. unfold query.
  apply keeps_bind; [apply keeps_emit | intros _].
  apply keeps_bind; [apply keeps_env_step | intros _].
  intros w Hn HI. specialize (Hs (db w) HI).
  destruct (exec s (db w)) as [res d']. now split.
Qed.

Lemma select_by_id_keeps (v : JsVal) : stmt_keeps I (SelectById v).
Proof.
  intros d HI. cbn [exec].
  destruct (bind_value c_id v) as [e|[]]; exact HI.
Qed.

Lemma select_all_keeps a b c : stmt_keeps I (SelectAll a b c).
Proof.
  intros d HI. cbn [exec].
  destruct a as [v|]; [destruct (bind_value c_status v)|]; destruct b, c; exact HI.
Qed.

Lemma keeps_camelRow (row : option Row) : keeps I (Todo.camelRow row).
Proof. destruct row; [apply keeps_ret | apply keeps_throw]. Qed.

Lemma keeps_read (n : Z) : keeps I (Todo.read n).
Proof.
  unfold Todo.read.
  apply keeps_bind; [apply keeps_reserve | intros _].
  apply keeps_bind; [apply keeps_query, select_by_id_keeps | intros result].
  apply keeps_bind; [apply keeps_emit | intros _].
  destruct (hd_error (rows result)); [|apply keeps_ret].
  apply keeps_bind; [apply keeps_camelRow | intros ?; apply keeps_ret].
Qed.

Lemma keeps_readAll filters sortBy orderBy : keeps I (Todo.readAll filters sortBy orderBy).
Proof.
  unfold Todo.readAll.
  apply keeps_bind; [apply keeps_reserve | intros _]. cbv zeta.
  apply keeps_bind; [apply keeps_query, select_all_keeps | intros result].
  apply keeps_bind; [apply keeps_emit | intros _; apply keeps_ret].
Qed.

Lemma keeps_update (this : Todo.t) (ups : Obj JsVal) :
  (forall edited id, stmt_keeps I (Update (convertToCase camelToSnake ups) edited id)) ->
  keeps I (Todo.update this ups).
Proof.
  intros Hs. unfold Todo.update.
  apply keeps_bind; [apply keeps_reserve | intros _]. cbv zeta.
  apply keeps_bind; [apply keeps_createUTCDate | intros t].
  apply keeps_bind; [apply keeps_query, Hs | intros result].
  apply keeps_bind; [apply keeps_emit | intros _].
  apply keeps_bind; [apply keeps_camelRow | intros ?; apply keeps_ret].
Qed.

Lemma keeps_delete (this : Todo.t) :
  (forall id, stmt_keeps I (Delete id)) -> keeps I (Todo.delete this).
Proof.
  intros Hs. unfold Todo.delete.
  apply keeps_bind; [apply keeps_reserve | intros _].
  apply keeps_bind; [apply keeps_query, Hs | intros result].
  apply keeps_bind; [apply keeps_emit | intros _; apply keeps_ret].
Qed.

Lemma keeps_create (props : Obj JsVal) :
  (forall v, stmt_keeps I (Insert (convertToCase camelToSnake
                                     (obj_set props "createdAt" v)))) ->
  keeps I (Todo.create props).
Proof.
  intros Hs. unfold Todo.create.
  apply keeps_bind; [apply keeps_reserve | intros _].
  apply keeps_bind;
    [destruct (nullish _); [apply keeps_createUTCDate | apply keeps_ret] | intros v].
  cbv zeta.
  apply keeps_bind; [apply keeps_query, Hs | intros result].
  apply keeps_bind; [apply keeps_emit | intros _].
  apply keeps_bind; [apply keeps_camelRow | intros ?; apply keeps_ret].
Qed.

Lemma keeps_guarded (n : Z) (label : string) (found : Todo.t -> M unit) :
  (forall todo, keeps I (found todo)) -> keeps I (guarded n label found).
Proof.
  intros Hf. unfold guarded.
  apply keeps_tryCatch; [|intros e; apply keeps_emit].
  apply keeps_bind; [apply keeps_read | intros [todo|]]; [apply Hf | apply keeps_emit].
Qed.

Lemma keeps_getTodoList (req : Request) : keeps I (getTodoList req).
Proof.
  unfold getTodoList. cbv zeta.
  repeat (match goal with |- context [if ?c then _ else _] => destruct c end;
          [apply keeps_emit|]).
  apply keeps_bind; [|intros ?; apply keeps_emit].
  apply keeps_tryCatch; [apply keeps_readAll | intros e].
  apply keeps_bind; [apply keeps_emit | intros _].
  apply keeps_bind; [apply keeps_emit | intros _; apply keeps_ret].
Qed.

Lemma keeps_getTodo (req : Request) : keeps I (getTodo req).
Proof.
  unfold getTodo. destruct (id req) as [n|]; [|apply keeps_emit].
  apply keeps_bind; [|intros [todo|]; apply keeps_emit].
  apply keeps_tryCatch; [apply keeps_read | intros e].
  apply keeps_bind; [apply keeps_emit | intros _].
  apply keeps_bind; [apply keeps_emit | intros _; apply keeps_ret].
Qed.

End Keeping.

(** X15.  [getTodoList] and [getTodo] are read-only: for every request, and
    whatever the storage answers, the database after the handler is the
    database before it, unless another client committed in between. *)
Theorem reading_handlers_change_nothing :
  forall (req : Request) (w : World),
    no_commits (schedule w) = true ->
    db (final (getTodoList req w)) = db w
    /\ db (final (getTodo req w)) = db w.
Proof.
  intros req w Hn. split.
  - now apply (keeps_getTodoList (fun d => d = db w) req w Hn).
  - now apply (keeps_getTodo (fun d => d = db w) req w Hn).
Qed.

(** ** The invariant of the data model *)

Lemma bind_value_inr (c : Column) (v v' : JsVal) :
  bind_value c v = inr v' -> v' = stored c v.
Proof.
  destruct v, c; cbn; try destruct (in_int4 _); intros H;
    try discriminate H; now injection H.
Qed.

Lemma bind_typed_cells_of (o : Obj JsVal) (cs : list (Column * JsVal)) :
  bind_typed o = inr cs -> cs = cells_of o.
Proof.
  revert cs. induction o as [|[k v] o IH]; cbn [bind_typed cells_of map fst snd];
    intros cs H.
  - now injection H.
  - destruct (column_of_name k) as [c|]; [|discriminate H].
    destruct (bind_value c v) as [e|v'] eqn:Ev; [discriminate H|].
    destruct (bind_typed o) as [e|cs']; [discriminate H|].
    injection H as <-. cbv zeta.
    now rewrite (bind_value_inr c v v' Ev), (IH cs' eq_refl).
Qed.

Lemma bind_cells_cells_of (o : Obj JsVal) (cs : list (Column * JsVal)) :
  bind_cells o = inr cs -> cs = cells_of o.
Proof.
  unfold bind_cells. destruct (existsb _ o); [discriminate|].
  apply bind_typed_cells_of.
Qed.

Lemma assign_spares (cs : list (Column * JsVal)) (r : Row) :
  spares_completion cs = true ->
  r_status (assign cs r) = r_status r
  /\ r_completed_at (assign cs r) = r_completed_at r.
Proof.
  unfold assign. revert r. induction cs as [|[c v] cs IH]; intros r H; [now split|].
  cbn [spares_completion forallb fst] in H. apply andb_prop in H as [Hc Hcs].
  cbn [fold_left fst snd]. destruct (IH (set_cell c v r) Hcs) as [-> ->].
  destruct c; cbn in Hc; try discriminate Hc; try (now split).
  destruct v; now split.
Qed.

Lemma forallb_filter {A} (p q : A -> bool) (l : list A) :
  forallb p l = true -> forallb p (filter q l) = true.
Proof.
  induction l as [|x l IH]; simpl; [reflexivity|]. intros H.
  apply andb_prop in H as [Hx Hl]. destruct (q x); simpl; [rewrite Hx|]; auto.
Qed.

Lemma forallb_map_all {A} (p : A -> bool) (f : A -> A) (l : list A) :
  (forall x, p x = true -> p (f x) = true) ->
  forallb p l = true -> forallb p (map f l) = true.
Proof.
  intros Hf. induction l as [|x l IH]; simpl; [reflexivity|]. intros H.
  apply andb_prop in H as [Hx Hl]. now rewrite (Hf x Hx), (IH Hl).
Qed.

Lemma delete_keeps_consistent (v : JsVal) : stmt_keeps consistent (Delete v).
Proof.
  intros d Hd. unfold consistent in *. cbn [exec].
  destruct (bind_value c_id v) as [e|[]]; cbn [snd table]; try exact Hd.
  now apply forallb_filter.
Qed.

Lemma update_keeps_consistent (values : Obj JsVal) (edited id : JsVal) :
  (forall cs t r, bind_cells values = inr cs ->
                  complete_has_date r = true ->
                  complete_has_date (set_cell c_edited_at t (assign cs r)) = true) ->
  stmt_keeps consistent (Update values edited id).
Proof.
  intros Hrow d Hd. unfold consistent in *. cbn [exec].
  destruct (is_undefined edited || is_undefined id); [exact Hd|].
  destruct values as [|kv values]; [exact Hd|].
  destruct (bind_cells (kv :: values)) as [e|cs] eqn:Eb;
    destruct (bind_value c_edited_at edited) as [e1|t];
    destruct (bind_value c_id id) as [e2|[]]; cbn [snd]; try exact Hd.
  destruct (assigns c_edited_at cs); cbn [snd table]; [exact Hd|].
  destruct (writes_null cs && existsb _ _); cbn [snd table]; [exact Hd|].
  rewrite forallb_app, (forallb_filter _ _ _ Hd). cbn [andb].
  apply forallb_map_all; [|now apply forallb_filter]. intros r. now apply Hrow.
Qed.

Lemma sparing_update_keeps_consistent (values : Obj JsVal) (edited id : JsVal) :
  spares_completion (cells_of values) = true ->
  stmt_keeps consistent (Update values edited id).
Proof.
  intros Hs. apply update_keeps_consistent. intros cs t r Hb Hr.
  apply bind_cells_cells_of in Hb. subst cs.
  destruct (assign_spares _ r Hs) as [H1 H2].
  unfold complete_has_date in *. cbn [set_cell r_status r_completed_at].
  now rewrite H1, H2.
Qed.

Lemma completing_update_keeps_consistent (t : Timestamp) (edited id : JsVal) :
  stmt_keeps consistent
    (Update (convertToCase camelToSnake (completeProps (JDate t))) edited id).
Proof.
  apply update_keeps_consistent. intros cs t' r Hb _.
  apply bind_cells_cells_of in Hb. subst cs. reflexivity.
Qed.

Lemma insert_keeps_consistent (values : Obj JsVal) :
  (forall s, complete_has_date (assign (cells_of values) (blank_row s)) = true) ->
  stmt_keeps consistent (Insert values).
Proof.
  intros Hrow d Hd. unfold consistent in *. cbn [exec].
  destruct (bind_cells values) as [e|cs] eqn:Eb; [exact Hd|].
  apply bind_cells_cells_of in Eb. subst cs.
  destruct (nullish _ || nullish _); [exact Hd|].
  destruct (negb (in_int4 _)); [exact Hd|].
  destruct (existsb _ _); [exact Hd|]. cbn [snd table].
  rewrite forallb_app, Hd. cbn [forallb]. now rewrite Hrow.
Qed.

Section Consistency.
Variable utcDateOf : JsVal -> JsVal.

Lemma updateProps_spare_completion (req : Request) :
  spares_completion (cells_of (convertToCase camelToSnake (updateProps utcDateOf req)))
  = true.
Proof.
  unfold updateProps.
  destruct (truthy (prop (body req) "title")),
    (truthy (prop (body req) "description")),
    (truthy (prop (body req) "dueAt")); reflexivity.
Qed.

Lemma createProps_insert_incomplete (req : Request) (a v : JsVal) (s : Z) :
  complete_has_date
    (assign (cells_of (convertToCase camelToSnake
                         (obj_set (createProps utcDateOf req a) "createdAt" v)))
       (blank_row s)) = true.
Proof. unfold createProps. destruct (truthy (prop (body req) "dueAt")); reflexivity. Qed.

Lemma keeps_consistent_createTodo (req : Request) :
  keeps consistent (createTodo utcDateOf req).
Proof.
  unfold createTodo.
  apply keeps_bind; [apply keeps_createUTCDate | intros a]. cbv zeta.
  apply keeps_bind; [|intros [todo|]; apply keeps_emit].
  apply keeps_tryCatch.
  - apply keeps_bind; [|intros ?; apply keeps_ret].
    apply keeps_create. intros v. apply insert_keeps_consistent. intros s.
    apply (createProps_insert_incomplete req a v s).
  - intros e. apply keeps_bind; [apply keeps_emit | intros _; apply keeps_ret].
Qed.

Lemma keeps_consistent_updateTodo (req : Request) :
  keeps consistent (updateTodo utcDateOf req).
Proof.
  destruct (id req) as [n|] eqn:E.
  2: { unfold updateTodo. rewrite E. apply keeps_emit. }
  rewrite (updateTodo_guarded utcDateOf req n E). apply keeps_guarded. intros todo.
  apply keeps_bind; [|intros ?; apply keeps_emit].
  apply keeps_update. intros edited i.
  apply sparing_update_keeps_consistent, updateProps_spare_completion.
Qed.

Lemma keeps_consistent_deleteTodo (req : Request) : keeps consistent (deleteTodo req).
Proof.
  destruct (id req) as [n|] eqn:E.
  2: { unfold deleteTodo. rewrite E. apply keeps_emit. }
  rewrite (deleteTodo_guarded req n E). apply keeps_guarded. intros todo.
  apply keeps_bind; [|intros []; apply keeps_emit].
  apply keeps_delete. intros i. apply delete_keeps_consistent.
Qed.

Lemma keeps_consistent_completeTodo (req : Request) :
  keeps consistent (completeTodo req).
Proof.
  destruct (id req) as [n|] eqn:E.
  2: { unfold completeTodo. rewrite E. apply keeps_emit. }
  rewrite (completeTodo_guarded req n E). apply keeps_guarded. intros todo.
  apply keeps_bind; [|intros ?; apply keeps_emit].
  unfold Todo.markComplete.
  apply (keeps_bind_value consistent (fun a => exists t, a = JDate t));
    [apply keeps_createUTCDate | intros w a [= <-]; eauto | intros a [t ->]].
  apply keeps_update. intros edited i. apply completing_update_keeps_consistent.
Qed.

(** X16.  The handlers keep the invariant of the data model, a complete
    todo has its completion time: if every row with [status = "complete"]
    has a non-null [completed_at] before a handler runs, the same holds
    after it, for each of the six handlers, every request and every course
    of storage failures, as long as no other client commits in between. *)
Theorem handlers_keep_complete_dated :
  forall (req : Request) (w : World),
    no_commits (schedule w) = true ->
    consistent (db w) ->
    consistent (db (final (getTodoList req w)))
    /\ consistent (db (final (getTodo req w)))
    /\ consistent (db (final (createTodo utcDateOf req w)))
    /\ consistent (db (final (updateTodo utcDateOf req w)))
    /\ consistent (db (final (deleteTodo req w)))
    /\ consistent (db (final (completeTodo req w))).
Proof.
  intros req w Hn Hd. repeat split.
  - now apply (keeps_getTodoList consistent req w Hn).
  - now apply (keeps_getTodo consistent req w Hn).
  - now apply (keeps_consistent_createTodo req w Hn).
  - now apply (keeps_consistent_updateTodo req w Hn).
  - now apply (keeps_consistent_deleteTodo req w Hn).
  - now apply (keeps_consistent_completeTodo req w Hn).
Qed.

End Consistency.

(** ** Creating without a required field *)

Lemma outcome_query_fails (s : Stmt) (w : World) :
  (forall d, exists e, fst (exec s d) = inl e) ->
  exists e, outcome (query s w) = inl e.
Proof.
  intros Hs. unfold query. rewrite outcome_bind. cbn [emit outcome final].
  rewrite outcome_bind. destruct (outcome (env_step w)) as [e|[]]; [eauto|].
  destruct (Hs (db (final (env_step w)))) as [e He].
  destruct (exec s (db (final (env_step w)))) as [res d']. cbn in *. eauto.
Qed.

Lemma create_throws (props : Obj JsVal) (w : World) :
  (forall v d, exists e,
      fst (exec (Insert (convertToCase camelToSnake (obj_set props "createdAt" v))) d)
      = inl e) ->
  exists e, outcome (Todo.create props w) = inl e.
Proof.
  intros Hs. unfold Todo.create. rewrite outcome_bind.
  destruct (outcome (reserve w)) as [e|[]]; [eauto|].
  rewrite outcome_bind.
  destruct (outcome _) as [e|v]; [eauto|]. cbv zeta.
  rewrite outcome_bind.
  destruct (outcome_query_fails _ (final ((if nullish (prop props "createdAt")
                                           then createUTCDate
                                           else ret (prop props "createdAt"))
                                            (final (reserve w)))) (Hs v)) as [e ->].
  eauto.
Qed.

Lemma insert_refused (values : Obj JsVal) (d : Database) :
  (forall cs, bind_cells values = inr cs ->
     nullish (r_title (assign cs (blank_row (serial d))))
     || nullish (r_description (assign cs (blank_row (serial d)))) = true) ->
  exists e, fst (exec (Insert values) d) = inl e
            /\ table (snd (exec (Insert values) d)) = table d.
Proof.
  intros H. cbn [exec].
  destruct (bind_cells values) as [e|cs] eqn:E; [exists e; split; reflexivity|].
  rewrite (H cs eq_refl). exists NotNullViolation. split; reflexivity.
Qed.

Lemma create_run_fails props d sched clock rd e d' :
  calm 2 sched = true ->
  nullish (prop props "createdAt") = false ->
  exec (Insert (convertToCase camelToSnake
                  (obj_set props "createdAt" (prop props "createdAt")))) d
  = (inl e, d') ->
  Todo.create props (mkWorld d sched clock rd)
  = mkRun (inl e) (mkWorld d' (tl (tl sched)) clock rd)
      [EReserve;
       EQuery (Insert (convertToCase camelToSnake
                         (obj_set props "createdAt" (prop props "createdAt"))))].
Proof.
  intros H Hn Hx. apply calm_tl in H as [H1 H2].
  etransitivity.
  { unfold Todo.create.
    eapply bind_steps; [apply reserve_calm; assumption|]. cbv beta zeta.
    rewrite Hn.
    eapply bind_steps; [reflexivity|]. cbv beta.
    eapply bind_stops. rewrite query_calm by assumption. rewrite Hx. reflexivity. }
  reflexivity.
Qed.

Section MissingFields.
Variable utcDateOf : JsVal -> JsVal.

Lemma createProps_required (req : Request) (a v : JsVal) (s : Z) :
  nullish (prop (body req) "title") || nullish (prop (body req) "description") = true ->
  forall cs,
    bind_cells (convertToCase camelToSnake
                  (obj_set (createProps utcDateOf req a) "createdAt" v)) = inr cs ->
    nullish (r_title (assign cs (blank_row s)))
    || nullish (r_description (assign cs (blank_row s))) = true.
Proof.
  intros H cs Hb. apply bind_cells_cells_of in Hb. subst cs.
  unfold createProps.
  remember (utcDateOf (prop (body req) "dueAt")) as due eqn:Edue. clear Edue.
  destruct (truthy (prop (body req) "dueAt"));
    remember (prop (body req) "title") as title eqn:Et;
    remember (prop (body req) "description") as description eqn:Ed;
    clear Et Ed;
    destruct title; cbn in H; try reflexivity;
    destruct description; try discriminate H; reflexivity.
Qed.

Lemma createTodo_run_fails (req : Request) (w : World) e w2 ev :
  Todo.create (createProps utcDateOf req (now w)) (ticked w)
  = mkRun (inl e) w2 ev ->
  createTodo utcDateOf req w
  = mkRun (inr tt) w2
      (ev ++ [ELog "Error while creating todo:" (Some e);
              ESend (mkResponse InternalServerError "Error while creating todo" None)]).
Proof.
  intros Hc. unfold createTodo.
  rewrite (bind_steps createUTCDate _ w (now w) (ticked w) [] (inr tt) w2
             ((ev ++ [ELog "Error while creating todo:" (Some e)])
              ++ [ESend (mkResponse InternalServerError
                           "Error while creating todo" None)]));
    [now rewrite <- app_assoc | reflexivity |].
  apply (bind_steps _ _ (ticked w) None w2
           (ev ++ [ELog "Error while creating todo:" (Some e)]) (inr tt) w2
           [ESend (mkResponse InternalServerError "Error while creating todo" None)]).
  - unfold tryCatch.
    rewrite (bind_stops _ _ (ticked w) e w2 ev Hc). reflexivity.
  - reflexivity.
Qed.

Lemma create_null_description_run (req : Request) (title : string) d sched clock rd :
  prop (body req) "title" = JStr title ->
  prop (body req) "description" = JNull ->
  dueAt_parses utcDateOf req = true ->
  calm 2 sched = true ->
  exists ev,
    Todo.create (createProps utcDateOf req (JDate (clock rd)))
      (mkWorld d sched clock (S rd))
    = mkRun (inl NotNullViolation)
        (mkWorld (mkDb (table d) (serial d + 1)) (tl (tl sched)) clock (S rd)) ev
    /\ sent ev = [] /\ logged ev = [].
Proof.
  intros Ht Hde Hd Hc.
  unfold dueAt_parses in Hd. unfold createProps. rewrite Ht, Hde.
  destruct (truthy (prop (body req) "dueAt")).
  - destruct (utcDateOf (prop (body req) "dueAt")) as [| | | | |due|]; try discriminate Hd.
    eexists. split; [|split].
    + exact (create_run_fails
               [("title", JStr title); ("description", JNull);
                ("status", JStr "incomplete"); ("createdAt", JDate (clock rd));
                ("dueAt", JDate due)]
               d sched clock (S rd) NotNullViolation _ Hc eq_refl eq_refl).
    + reflexivity.
    + reflexivity.
  - eexists. split; [|split].
    + exact (create_run_fails
               [("title", JStr title); ("description", JNull);
                ("status", JStr "incomplete"); ("createdAt", JDate (clock rd))]
               d sched clock (S rd) NotNullViolation _ Hc eq_refl eq_refl).
    + reflexivity.
    + reflexivity.
Qed.

Lemma create_undefined_run (req : Request) d sched clock rd :
  is_undefined (prop (body req) "title")
  || is_undefined (prop (body req) "description") = true ->
  calm 2 sched = true ->
  exists ev,
    Todo.create (createProps utcDateOf req (JDate (clock rd)))
      (mkWorld d sched clock (S rd))
    = mkRun (inl UndefinedValue) (mkWorld d (tl (tl sched)) clock (S rd)) ev
    /\ sent ev = [] /\ logged ev = [].
Proof.
  intros Hu Hc. unfold createProps.
  remember (utcDateOf (prop (body req) "dueAt")) as due eqn:Edue. clear Edue.
  remember (prop (body req) "title") as title eqn:Et.
  remember (prop (body req) "description") as description eqn:Ed.
  clear Et Ed.
  assert (Hcase : title = JUndefined
                  \/ (is_undefined title = false /\ description = JUndefined)).
  { destruct title; cbn in Hu; auto; right; (split; [reflexivity|]);
      destruct description; try discriminate Hu; reflexivity. }
  destruct (truthy (prop (body req) "dueAt")).
  - eexists.
    split;
      [refine (create_run_fails
                 [("title", title); ("description", description);
                  ("status", JStr "incomplete"); ("createdAt", JDate (clock rd));
                  ("dueAt", due)]
                 d sched clock (S rd) UndefinedValue d Hc eq_refl _)
      | split; reflexivity].
    destruct Hcase as [->|[Hn ->]]; [reflexivity|].
    destruct title; try discriminate Hn; reflexivity.
  - eexists.
    split;
      [refine (create_run_fails
                 [("title", title); ("description", description);
                  ("status", JStr "incomplete"); ("createdAt", JDate (clock rd))]
                 d sched clock (S rd) UndefinedValue d Hc eq_refl _)
      | split; reflexivity].
    destruct Hcase as [->|[Hn ->]]; [reflexivity|].
    destruct title; try discriminate Hn; reflexivity.
Qed.

(** X17.  [createTodo] with a body whose [title] or [description] is
    missing or null: the INSERT is refused, so the handler answers 500
    "Error while creating todo", one response in every world, and the table
    is as before unless another client committed.  With the storage
    answering: a missing field is refused by the driver, before the
    statement is sent, and the database is as it was; a null description
    next to a title is refused by the NOT NULL constraint when the statement
    runs, and the id the INSERT has drawn from the sequence is gone. *)
Theorem createTodo_without_required_field :
  forall (req : Request) (w : World),
    nullish (prop (body req) "title") || nullish (prop (body req) "description") = true ->
    sent (events (createTodo utcDateOf req w))
    = [mkResponse InternalServerError "Error while creating todo" None]
    /\ (no_commits (schedule w) = true ->
        table (db (final (createTodo utcDateOf req w))) = table (db w))
    /\ (calm 2 (schedule w) = true ->
        is_undefined (prop (body req) "title")
        || is_undefined (prop (body req) "description") = true ->
        logged (events (createTodo utcDateOf req w))
        = [("Error while creating todo:", Some UndefinedValue)]
        /\ db (final (createTodo utcDateOf req w)) = db w)
    /\ (forall title : string,
          calm 2 (schedule w) = true ->
          prop (body req) "title" = JStr title ->
          prop (body req) "description" = JNull ->
          dueAt_parses utcDateOf req = true ->
          logged (events (createTodo utcDateOf req w))
          = [("Error while creating todo:", Some NotNullViolation)]
          /\ db (final (createTodo utcDateOf req w))
             = mkDb (table (db w)) (serial (db w) + 1)).
Proof.
  intros req w H. split; [|split; [|split]].
  - rewrite (createTodo_events utcDateOf req w). cbv zeta. rewrite sent_app.
    destruct (silent_create (createProps utcDateOf req (now w)) (ticked w)) as [-> _].
    destruct (create_throws (createProps utcDateOf req (now w)) (ticked w))
      as [e ->]; [|reflexivity].
    intros v d.
    destruct (insert_refused _ d (createProps_required req (now w) v (serial d) H))
      as (e & He & _).
    now exists e.
  - intros Hn.
    enough (Hk : keeps (fun d => table d = table (db w)) (createTodo utcDateOf req))
      by (now apply (Hk w Hn)).
    unfold createTodo.
    apply keeps_bind; [apply keeps_createUTCDate | intros a]. cbv zeta.
    apply keeps_bind; [|intros [todo|]; apply keeps_emit].
    apply keeps_tryCatch.
    + apply keeps_bind; [|intros ?; apply keeps_ret].
      apply keeps_create. intros v d Hd.
      fold (createProps utcDateOf req a).
      destruct (insert_refused _ d (createProps_required req a v (serial d) H))
        as (e & _ & Ht).
      now rewrite Ht.
    + intros e. apply keeps_bind; [apply keeps_emit | intros _; apply keeps_ret].
  - intros Hc Hu. destruct w as [d sched clock rd]. cbn [schedule db] in *.
    destruct (create_undefined_run req d sched clock rd Hu Hc) as (ev & Hrun & Hs & Hl).
    rewrite (createTodo_run_fails req (mkWorld d sched clock rd) _ _ _ Hrun).
    cbn [events final db]. rewrite logged_app, Hl. split; reflexivity.
  - intros title Hc Ht Hde Hd. destruct w as [d sched clock rd]. cbn [schedule db] in *.
    destruct (create_null_description_run req title d sched clock rd Ht Hde Hd Hc)
      as (ev & Hrun & Hs & Hl).
    rewrite (createTodo_run_fails req (mkWorld d sched clock rd) _ _ _ Hrun).
    cbn [events final db]. rewrite logged_app, Hl. split; reflexivity.
Qed.

End MissingFields.

(* ===================================================================== *)
(** * The further properties at work on the sample data *)
(* ===================================================================== *)

Lemma second_call_throws_no_response_witness :
  sent (events (updateTodo epoch_date (id_request 1) (kitchen []))) = []
  /\ sent (events (deleteTodo (id_request 1)
                     (kitchen [Quiet; Quiet; Quiet; Fault ConnectionError]))) = []
  /\ sent (events (completeTodo (id_request 1)
                     (kitchen [Quiet; Quiet; Fault ConnectionError]))) = [].
Proof.
  split; [|split].
  - apply (second_call_throws_no_response epoch_date (id_request 1) 1%Z (kitchen [])
             (todo_of_row milk) SyntaxError eq_refl eq_refl).
    reflexivity.
  - apply (second_call_throws_no_response epoch_date (id_request 1) 1%Z
             (kitchen [Quiet; Quiet; Quiet; Fault ConnectionError])
             (todo_of_row milk) ConnectionError eq_refl eq_refl).
    reflexivity.
  - apply (second_call_throws_no_response epoch_date (id_request 1) 1%Z
             (kitchen [Quiet; Quiet; Fault ConnectionError])
             (todo_of_row milk) ConnectionError eq_refl eq_refl).
    reflexivity.
Defined.

Lemma read_returns_the_row_or_nothing_witness :
  outcome (Todo.read 2 (kitchen [])) = inr (Some (todo_of_row bread))
  /\ outcome (Todo.read 7 (kitchen [])) = inr None
  /\ outcome (Todo.read 2147483648 (kitchen [])) = inl NumericValueOutOfRange
  /\ events (Todo.read 2147483648 (kitchen []))
     = [EReserve; EQuery (SelectById (JNum 2147483648))].
Proof.
  split; [|split; [|split]].
  - apply (proj1 (read_returns_the_row_or_nothing 2%Z (kitchen []) eq_refl) eq_refl).
  - apply (proj1 (read_returns_the_row_or_nothing 7%Z (kitchen []) eq_refl) eq_refl).
    reflexivity.
  - apply (proj2 (read_returns_the_row_or_nothing 2147483648%Z (kitchen []) eq_refl)
             eq_refl).
  - apply (proj2 (read_returns_the_row_or_nothing 2147483648%Z (kitchen []) eq_refl)
             eq_refl).
Defined.

Lemma missing_id_is_not_found_witness :
  (events (completeTodo (id_request 999) (kitchen []))
   = (read_events 999 ++ [not_found])%list
   /\ db (final (completeTodo (id_request 999) (kitchen []))) = pantry)
  /\ (events (deleteTodo (id_request 2147483648) (kitchen []))
      = [EReserve; EQuery (SelectById (JNum 2147483648));
         ELog "Error while deleting todo:" (Some NumericValueOutOfRange)]
      /\ db (final (deleteTodo (id_request 2147483648) (kitchen []))) = pantry).
Proof.
  split.
  - apply (proj1 (missing_id_is_not_found epoch_date (id_request 999) 999%Z (kitchen [])
                    eq_refl eq_refl eq_refl) eq_refl).
  - apply (proj2 (missing_id_is_not_found epoch_date (id_request 2147483648)
                    2147483648%Z (kitchen []) eq_refl eq_refl eq_refl) eq_refl).
Defined.

Lemma getTodo_answers_by_the_table_witness :
  (events (getTodo (id_request 2) (kitchen []))
   = (read_events 2 ++
      [ESend (mkResponse OK "Todo retrieved"
                (Some (TodoPayload (Todo.props (todo_of_row bread)))))])%list
   /\ db (final (getTodo (id_request 2) (kitchen []))) = pantry)
  /\ status_codes (events (getTodo (id_request 2147483648) (kitchen [])))
     = [InternalServerError; NotFound].
Proof.
  split.
  - apply (proj1 (getTodo_answers_by_the_table (id_request 2) 2%Z (kitchen [])
                    eq_refl eq_refl) eq_refl).
  - destruct (proj2 (getTodo_answers_by_the_table (id_request 2147483648)
                       2147483648%Z (kitchen []) eq_refl eq_refl) eq_refl) as [He _].
    rewrite He. reflexivity.
Defined.

Lemma delete_and_complete_never_throw_witness :
  outcome (deleteTodo (id_request 1) (kitchen [Quiet; Quiet; Fault ConnectionError]))
  = inr tt
  /\ outcome (completeTodo (id_request 1) (kitchen [Fault ConnectionError])) = inr tt.
Proof.
  split.
  - apply (delete_and_complete_never_throw (id_request 1) 1%Z
             (kitchen [Quiet; Quiet; Fault ConnectionError]) eq_refl).
  - apply (delete_and_complete_never_throw (id_request 1) 1%Z
             (kitchen [Fault ConnectionError]) eq_refl).
Defined.

Lemma delete_twice_witness :
  exists r,
    find (has_id 1) (table (db (kitchen []))) = Some r
    /\ sent (events (deleteTodo (id_request 1) (kitchen [])))
       = [mkResponse OK "Todo deleted successfully!"
            (Some (TodoPayload (Todo.props (todo_of_row r))))]
    /\ table (db (final (deleteTodo (id_request 1) (kitchen []))))
       = filter (fun r => negb (has_id 1 r)) (table (db (kitchen [])))
    /\ sent (events (deleteTodo (id_request 1)
                       (final (deleteTodo (id_request 1) (kitchen [])))))
       = [mkResponse NotFound "Not found" None].
Proof.
  apply (delete_twice (id_request 1) 1%Z (kitchen [])); reflexivity.
Defined.

Lemma created_todo_can_be_fetched_witness :
  exists todo,
    sent (events (createTodo epoch_date
                    (post_request [("title", JStr "Buy eggs");
                                   ("description", JStr "a dozen")])
                    (kitchen [])))
    = [mkResponse Created "Todo created successfully!" (Some (TodoPayload todo))]
    /\ prop todo "id" = JNum (serial (db (kitchen [])))
    /\ sent (events (getTodo (id_request 3)
                       (final (createTodo epoch_date
                                 (post_request [("title", JStr "Buy eggs");
                                                ("description", JStr "a dozen")])
                                 (kitchen [])))))
       = [mkResponse OK "Todo retrieved" (Some (TodoPayload todo))].
Proof.
  apply (created_todo_can_be_fetched epoch_date
           (post_request [("title", JStr "Buy eggs"); ("description", JStr "a dozen")])
           (id_request 3) (kitchen [])); reflexivity.
Defined.

Lemma getTodoList_lists_by_status_witness :
  sent (events (getTodoList (list_request [("status", "complete")]) (kitchen [])))
  = [list_response [bread]]
  /\ sent (events (getTodoList (list_request [("orderBy", "desc")]) (kitchen [])))
     = [list_response [bread; milk]].
Proof.
  split.
  - apply (getTodoList_lists_by_status (list_request [("status", "complete")])
             (kitchen [])); try reflexivity; discriminate.
  - apply (getTodoList_lists_by_status (list_request [("orderBy", "desc")])
             (kitchen [])); try reflexivity; discriminate.
Defined.

Lemma empty_sortBy_breaks_the_statement_witness :
  sent (events (getTodoList (list_request [("sortBy", "")]) (kitchen [])))
  = [mkResponse InternalServerError (list_error_message SyntaxError) None;
     mkResponse OK "Todo list retrieved" (Some (TodosPayload []))].
Proof.
  apply (empty_sortBy_breaks_the_statement (list_request [("sortBy", "")])
           (kitchen [])); try reflexivity; discriminate.
Defined.

Lemma update_without_fields_is_unanswered_witness :
  events (updateTodo epoch_date (mkRequest [("title", JStr "")] [] (Some 1%Z))
            (kitchen []))
  = (read_events 1 ++
     [EReserve; EQuery (Update [] (now (kitchen [])) (JNum 1));
      ELog "Error while updating todo:" (Some SyntaxError)])%list
  /\ db (final (updateTodo epoch_date (mkRequest [("title", JStr "")] [] (Some 1%Z))
                  (kitchen []))) = pantry.
Proof.
  apply (update_without_fields_is_unanswered epoch_date
           (mkRequest [("title", JStr "")] [] (Some 1%Z)) 1%Z (kitchen []));
    reflexivity.
Defined.

Lemma updateTodo_changes_the_given_fields_witness :
  exists todo,
    sent (events (updateTodo epoch_date
                    (mkRequest [("title", JStr "Buy oat milk")] [] (Some 1%Z))
                    (kitchen [])))
    = [mkResponse OK "Todo updated successfully!" (Some (TodoPayload todo))]
    /\ prop todo "editedAt" = JDate 5000%Z
    /\ prop todo "title" = JStr "Buy oat milk"
    /\ prop todo "description" = JStr "2%"
    /\ prop todo "status" = JStr "incomplete".
Proof.
  destruct (updateTodo_changes_the_given_fields epoch_date
              (mkRequest [("title", JStr "Buy oat milk")] [] (Some 1%Z)) 1%Z
              (kitchen []) milk eq_refl eq_refl eq_refl eq_refl)
    as (todo & Hs & He & Ht & Hd & _ & _ & Hst & _).
  - discriminate.
  - exists todo. repeat split; assumption.
Defined.

Lemma reading_handlers_change_nothing_witness :
  db (final (getTodoList (list_request []) (kitchen [Quiet; Fault ConnectionError])))
  = pantry
  /\ db (final (getTodo (id_request 1) (kitchen [Fault ConnectionError]))) = pantry.
Proof.
  split.
  - apply (reading_handlers_change_nothing (list_request [])
             (kitchen [Quiet; Fault ConnectionError])). reflexivity.
  - apply (reading_handlers_change_nothing (id_request 1)
             (kitchen [Fault ConnectionError])). reflexivity.
Defined.

Lemma handlers_keep_complete_dated_witness :
  consistent pantry
  /\ consistent (db (final (completeTodo (id_request 1) (kitchen []))))
  /\ consistent (db (final (updateTodo epoch_date
                              (mkRequest [("title", JStr "Buy oat milk")] [] (Some 1%Z))
                              (kitchen [Quiet; Quiet; Quiet; Fault ConnectionError])))).
Proof.
  split; [reflexivity|]. split.
  - apply (handlers_keep_complete_dated epoch_date (id_request 1) (kitchen []));
      reflexivity.
  - apply (handlers_keep_complete_dated epoch_date
             (mkRequest [("title", JStr "Buy oat milk")] [] (Some 1%Z))
             (kitchen [Quiet; Quiet; Quiet; Fault ConnectionError])); reflexivity.
Defined.

Lemma createTodo_without_required_field_witness :
  (sent (events (createTodo epoch_date (post_request [("title", JStr "Buy eggs")])
                   (kitchen [])))
   = [mkResponse InternalServerError "Error while creating todo" None]
   /\ db (final (createTodo epoch_date (post_request [("title", JStr "Buy eggs")])
                   (kitchen []))) = pantry)
  /\ (sent (events (createTodo epoch_date
                      (post_request [("title", JStr "Buy eggs"); ("description", JNull)])
                      (kitchen [])))
      = [mkResponse InternalServerError "Error while creating todo" None]
      /\ db (final (createTodo epoch_date
                      (post_request [("title", JStr "Buy eggs"); ("description", JNull)])
                      (kitchen [])))
         = mkDb [milk; bread] 4).
Proof.
  split.
  - destruct (createTodo_without_required_field epoch_date
                (post_request [("title", JStr "Buy eggs")]) (kitchen []) eq_refl)
      as (Hs & _ & Hu & _).
    split; [exact Hs | exact (proj2 (Hu eq_refl eq_refl))].
  - destruct (createTodo_without_required_field epoch_date
                (post_request [("title", JStr "Buy eggs"); ("description", JNull)])
                (kitchen []) eq_refl)
      as (Hs & _ & _ & Hn).
    split; [exact Hs | exact (proj2 (Hn "Buy eggs" eq_refl eq_refl eq_refl eq_refl))].
Defined.
